(** * oracle-db-mcp: query classification, danger assessment and execution gates

    A shallow embedding of [src/query-executor.ts] and of the session cache of
    [src/connection-manager.ts], with the properties of the classification
    and mode-enforcement layer proved over it.

    Conventions of the embedding.
    - A JavaScript string is a [string] of code units.  The case mapping and
      the blank test are the ones JavaScript applies to the code units
      0..127; a byte above 127 stands for a code unit that has no case
      mapping, is not blank and is not a word character.  Code units whose
      upper-case form is an ASCII letter or several letters (U+017F, U+0131,
      U+00DF, ligatures) are outside the model.
    - A number that a caller or the database supplies is a double with an
      integral value, given as the integer it denotes ([Z]); a sum of two
      numbers is rounded as a sum of doubles is ([Js.add]).  A length or a
      counter that starts at 0 is a [nat]; [undefined] is [None].
      Non-integral and non-finite numbers are outside the model.
    - An [async] method is run to completion: a computation in a state and
      exception monad over the session cache, the list of driver calls made so
      far and the number of clock reads.  [console.error] output is not
      modelled.
    - Embedded: [detectQueryType], [assessDangerLevel], [executeQuery],
      [executeDml], [executePlsql], [commit], [rollback] and, of the manager,
      [initialize], [getConnectionConfig], [connect], [disconnect],
      [disconnectAll], [isConnected], [getConnection], [getPassword] and
      [getDsn], [listConnections], [testConnection] and [parseConfig]; of
      the dispatcher, the executor calls of execute_query and execute_dml;
      of the formatters, [padRight], [padLeft] and [createMarkdownTable].
      Reading the configuration from files and the environment,
      [executeProcedure], the schema browser and the other formatters are
      not. *)

From Stdlib Require Import Bool List ZArith QArith Lia Ascii String.
From Stdlib Require Import Numbers.DecimalString.
Import ListNotations.

Local Close Scope Q_scope.
Local Open Scope string_scope.
Local Open Scope bool_scope.

(* ------------------------------------------------------------------------- *)
(** ** Enumerations of [types.ts] *)

Inductive ConnectionMode := READONLY | READWRITE.
Inductive OracleClientMode := THIN | THICK.
Inductive QueryType := SELECT | INSERT | UPDATE | DELETE | DDL | PLSQL | OTHER.
Inductive DangerLevel := SAFE | MODERATE | HIGH | CRITICAL.

Definition QueryType_eqb (a b : QueryType) : bool :=
  match a, b with
  | SELECT, SELECT | INSERT, INSERT | UPDATE, UPDATE | DELETE, DELETE
  | DDL, DDL | PLSQL, PLSQL | OTHER, OTHER => true
  | _, _ => false
  end.

Definition DangerLevel_eqb (a b : DangerLevel) : bool :=
  match a, b with
  | SAFE, SAFE | MODERATE, MODERATE | HIGH, HIGH | CRITICAL, CRITICAL => true
  | _, _ => false
  end.

(** The seven members of the [QueryType] enum, in declaration order. *)
Definition all_query_types : list QueryType :=
  [SELECT; INSERT; UPDATE; DELETE; DDL; PLSQL; OTHER].

(* ------------------------------------------------------------------------- *)
(** ** JavaScript string operations *)

Module Js.

Definition code (c : ascii) : N := N_of_ascii c.

Definition in_range (lo hi : N) (c : ascii) : bool :=
  (lo <=? code c)%N && (code c <=? hi)%N.

(** WhiteSpace and LineTerminator code units below 128: TAB, LF, VT, FF,
    CR and SPACE.  It is the set removed by [trim] and matched by [\s]. *)
Definition is_space (c : ascii) : bool :=
  in_range 9 13 c || (code c =? 32)%N.

Definition is_lower (c : ascii) : bool := in_range 97 122 c.

(** Word characters of [\w] and [\b]: [A-Za-z0-9_]. *)
Definition is_word (c : ascii) : bool :=
  in_range 65 90 c || in_range 97 122 c || in_range 48 57 c
  || (code c =? 95)%N.

Definition upper_char (c : ascii) : ascii :=
  if is_lower c then ascii_of_N (code c - 32) else c.

Fixpoint toUpperCase (s : string) : string :=
  match s with
  | EmptyString => EmptyString
  | String c s' => String (upper_char c) (toUpperCase s')
  end.

Fixpoint trimStart (s : string) : string :=
  match s with
  | EmptyString => EmptyString
  | String c s' => if is_space c then trimStart s' else s
  end.

Fixpoint trimEnd (s : string) : string :=
  match s with
  | EmptyString => EmptyString
  | String c s' =>
      match trimEnd s' with
      | EmptyString => if is_space c then EmptyString
                       else String c EmptyString
      | t => String c t
      end
  end.

Definition trim (s : string) : string := trimEnd (trimStart s).

(** [s.startsWith(p)] *)
Definition startsWith (s p : string) : bool := String.prefix p s.

(** [s.includes(p)] *)
Fixpoint includes (s p : string) : bool :=
  String.prefix p s
  || match s with
     | EmptyString => false
     | String _ s' => includes s' p
     end.

(** [ls.join(sep)] *)
Definition join (sep : string) (ls : list string) : string :=
  String.concat sep ls.

(** A string is truthy when it is not empty. *)
Definition truthy (s : string) : bool :=
  match s with EmptyString => false | _ => true end.

(** [kws.some(kw => s.startsWith(kw))] *)
Definition some_startsWith (kws : list string) (s : string) : bool :=
  existsb (fun kw => startsWith s kw) kws.

(** The double nearest to an integer, ties to the even significand: an
    integer of magnitude up to 2^53 is a double; beyond, the 53 leading bits
    are kept and the rest rounded. *)
Definition round_double (z : Z) : Z :=
  let a := Z.abs z in
  if (a <=? 2 ^ 53)%Z then z
  else
    let e := (Z.log2 a - 52)%Z in
    let q := Z.shiftr a e in
    let r := (a - Z.shiftl q e)%Z in
    let half := Z.shiftl 1 (e - 1) in
    let q' := if (r <? half)%Z then q
              else if (half <? r)%Z then (q + 1)%Z
              else if Z.even q then q else (q + 1)%Z in
    (Z.sgn z * Z.shiftl q' e)%Z.

(** [a + b] on numbers. *)
Definition add (a b : Z) : Z := round_double (a + b).

(** Template interpolation of an integer (as JavaScript prints a number
    below 10^21, in decimal digits) and of a length. *)
Definition of_Z (z : Z) : string := NilEmpty.string_of_int (Z.to_int z).
Definition of_nat (n : nat) : string :=
  NilEmpty.string_of_uint (Nat.to_uint n).

End Js.

(* ------------------------------------------------------------------------- *)
(** ** Regular expressions

    The fragment of JavaScript regular expressions that the source uses:
    literal characters, [\s], [\w], a greedy [+] on a single-character atom,
    [\b], sequence, alternation, [?] and capture groups, matched by
    backtracking in the priority order of the language (leftmost start, first
    alternative, longest repetition first).  None of the expressions carries
    the [g] or [y] flag, so [test] and [match] keep no state. *)

Module Regex.

Inductive atom :=
| ALit (c : ascii)
| ASpace
| AWord.

Inductive regex :=
| Eps
| Atom (a : atom)
| PlusA (a : atom)
| WordB
| Seq (r1 r2 : regex)
| Alt (r1 r2 : regex)
| Opt (r : regex)
| Group (n : nat) (r : regex).

(** Captured texts, by group number. *)
Definition Caps := list (nat * string).

Fixpoint cap (n : nat) (cs : Caps) : option string :=
  match cs with
  | [] => None
  | (m, s) :: cs' => if Nat.eqb n m then Some s else cap n cs'
  end.

(** With the [i] flag both sides are canonicalised to upper case. *)
Definition canon (i : bool) (c : ascii) : ascii :=
  if i then Js.upper_char c else c.

Definition atom_ok (i : bool) (a : atom) (c : ascii) : bool :=
  match a with
  | ALit l => Ascii.eqb (canon i l) (canon i c)
  | ASpace => Js.is_space c
  | AWord => Js.is_word c
  end.

Definition word_before (prev : option ascii) : bool :=
  match prev with Some c => Js.is_word c | None => false end.

Definition word_after (s : string) : bool :=
  match s with String c _ => Js.is_word c | EmptyString => false end.

Definition Cont := option ascii -> string -> Caps -> option Caps.

(** [a+]: one or more, the longest run tried first. *)
Fixpoint plusA (p : ascii -> bool) (s : string) (cs : Caps) (k : Cont)
  : option Caps :=
  match s with
  | EmptyString => None
  | String c s' =>
      if p c then
        match plusA p s' cs k with
        | Some r => Some r
        | None => k (Some c) s' cs
        end
      else None
  end.

Fixpoint rmatch (i : bool) (r : regex) (prev : option ascii) (s : string)
    (cs : Caps) (k : Cont) : option Caps :=
  match r with
  | Eps => k prev s cs
  | Atom a =>
      match s with
      | String c s' => if atom_ok i a c then k (Some c) s' cs else None
      | EmptyString => None
      end
  | PlusA a => plusA (atom_ok i a) s cs k
  | WordB =>
      if xorb (word_before prev) (word_after s) then k prev s cs else None
  | Seq r1 r2 =>
      rmatch i r1 prev s cs (fun p s' cs' => rmatch i r2 p s' cs' k)
  | Alt r1 r2 =>
      match rmatch i r1 prev s cs k with
      | Some x => Some x
      | None => rmatch i r2 prev s cs k
      end
  | Opt r1 =>
      match rmatch i r1 prev s cs k with
      | Some x => Some x
      | None => k prev s cs
      end
  | Group n r1 =>
      rmatch i r1 prev s cs
        (fun p s' cs' =>
           k p s' ((n, substring 0 (length s - length s') s) :: cs'))
  end.

(** [s.match(r)] for a non-global expression: the captures of the leftmost
    match, or [None]. *)
Fixpoint exec_from (i : bool) (r : regex) (prev : option ascii) (s : string)
  : option Caps :=
  match rmatch i r prev s [] (fun _ _ cs => Some cs) with
  | Some cs => Some cs
  | None =>
      match s with
      | EmptyString => None
      | String c s' => exec_from i r (Some c) s'
      end
  end.

Definition exec (i : bool) (r : regex) (s : string) : option Caps :=
  exec_from i r None s.

(** [r.test(s)] *)
Definition test (i : bool) (r : regex) (s : string) : bool :=
  match exec i r s with Some _ => true | None => false end.

(** A literal word, character by character. *)
Fixpoint lit (w : string) : regex :=
  match w with
  | EmptyString => Eps
  | String c w' => Seq (Atom (ALit c)) (lit w')
  end.

(** [(w1|w2|...)] without its group. *)
Fixpoint alts (ws : list string) : regex :=
  match ws with
  | [] => Eps
  | [w] => lit w
  | w :: ws' => Alt (lit w) (alts ws')
  end.

Definition seqs (rs : list regex) : regex := fold_right Seq Eps rs.

End Regex.

Import Regex.

(* ------------------------------------------------------------------------- *)
(** ** Query type detection and danger assessment ([query-executor.ts]) *)

Module DANGEROUS_PATTERNS.

(** [/\bDROP\s+(TABLE|INDEX|VIEW|SEQUENCE|PROCEDURE|FUNCTION|PACKAGE|TRIGGER|SYNONYM|DATABASE|USER|TABLESPACE)\b/i] *)
Definition drop : regex :=
  seqs [WordB; lit "DROP"; PlusA ASpace;
        Group 1 (alts ["TABLE"; "INDEX"; "VIEW"; "SEQUENCE"; "PROCEDURE";
                       "FUNCTION"; "PACKAGE"; "TRIGGER"; "SYNONYM";
                       "DATABASE"; "USER"; "TABLESPACE"]);
        WordB].

(** [/\bTRUNCATE\s+TABLE\b/i] *)
Definition truncate : regex :=
  seqs [WordB; lit "TRUNCATE"; PlusA ASpace; lit "TABLE"; WordB].

(** [/\bALTER\s+SYSTEM\b/i] *)
Definition alterSystem : regex :=
  seqs [WordB; lit "ALTER"; PlusA ASpace; lit "SYSTEM"; WordB].

(** [/\bGRANT\s+/i] *)
Definition grant : regex := seqs [WordB; lit "GRANT"; PlusA ASpace].

(** [/\bREVOKE\s+/i] *)
Definition revoke : regex := seqs [WordB; lit "REVOKE"; PlusA ASpace].

End DANGEROUS_PATTERNS.

Definition ddl_keywords : list string :=
  ["CREATE"; "ALTER"; "DROP"; "TRUNCATE"; "GRANT"; "REVOKE"].

Definition plsql_keywords : list string := ["BEGIN"; "DECLARE"].

Definition detectQueryType (sql : string) : QueryType :=
  let sqlStripped := Js.toUpperCase (Js.trim sql) in
  if Js.startsWith sqlStripped "SELECT" then SELECT
  else if Js.startsWith sqlStripped "INSERT" then INSERT
  else if Js.startsWith sqlStripped "UPDATE" then UPDATE
  else if Js.startsWith sqlStripped "DELETE" then DELETE
  else if Js.some_startsWith ddl_keywords sqlStripped then DDL
  else if Js.some_startsWith plsql_keywords sqlStripped
          || Js.includes sqlStripped "CREATE OR REPLACE" then PLSQL
  else OTHER.

Record Assessment := mkAssessment {
  level : DangerLevel;
  warnings : list string
}.

Definition warn_drop : string :=
  "⚠️ DROP statement detected - this will permanently remove objects".
Definition warn_truncate : string :=
  "⚠️ TRUNCATE statement detected - this will remove all data from the table".
Definition warn_alter_system : string :=
  "⚠️ ALTER SYSTEM detected - this modifies database configuration".
Definition warn_delete_no_where : string :=
  "⚠️ DELETE without WHERE clause - this will delete ALL rows in the table".
Definition warn_update_no_where : string :=
  "⚠️ UPDATE without WHERE clause - this will update ALL rows in the table".
Definition warn_ddl : string :=
  "ℹ️ DDL statement - schema changes will be made".

Definition assessDangerLevel (sql : string) (queryType : QueryType)
  : Assessment :=
  if QueryType_eqb queryType SELECT then mkAssessment SAFE []
  else if test true DANGEROUS_PATTERNS.drop sql
       then mkAssessment CRITICAL [warn_drop]
  else if test true DANGEROUS_PATTERNS.truncate sql
       then mkAssessment CRITICAL [warn_truncate]
  else if test true DANGEROUS_PATTERNS.alterSystem sql
       then mkAssessment CRITICAL [warn_alter_system]
  else if QueryType_eqb queryType DELETE
          && negb (Js.includes (Js.toUpperCase sql) "WHERE")
       then mkAssessment HIGH [warn_delete_no_where]
  else if QueryType_eqb queryType UPDATE
          && negb (Js.includes (Js.toUpperCase sql) "WHERE")
       then mkAssessment HIGH [warn_update_no_where]
  else if QueryType_eqb queryType DDL
       then mkAssessment HIGH [warn_ddl]
  else if existsb (QueryType_eqb queryType) [INSERT; UPDATE; DELETE]
       then mkAssessment MODERATE []
  else mkAssessment SAFE [].


(* ------------------------------------------------------------------------- *)
(** ** Configuration records ([types.ts]) *)

Record ConnectionConfig := mkConnectionConfig {
  cc_name : string;
  cc_username : string;
  cc_mode : ConnectionMode;
  cc_host : option string;
  cc_port : option Z;
  cc_serviceName : option string;
  cc_sid : option string;
  cc_connectionString : option string;
  cc_password : option string;
  cc_passwordEnv : option string
}.

Record ServerConfig := mkServerConfig {
  oracleClientMode : OracleClientMode;
  oracleClientPath : option string;
  defaultMaxRows : Z;
  queryTimeout : Z;
  sc_connections : list ConnectionConfig
}.

(* ------------------------------------------------------------------------- *)
(** ** The driver boundary ([oracledb])

    A session is a handle.  Every call that reaches the driver is recorded,
    newest first; the driver answers a call from the calls made before it, so
    that any deterministic database, failing or not, is an instance. *)

Inductive Outcome (A : Type) :=
| Returned (a : A)
| Thrown (msg : string).
Arguments Returned {A} a.
Arguments Thrown {A} msg.

Definition Handle := nat.
Definition Binds := list (string * string).
Definition Row := list string.

Inductive OutFormat := OUT_FORMAT_ARRAY | OUT_FORMAT_OBJECT.

Record ExecuteOptions := mkExecuteOptions {
  maxRows : option Z;
  autoCommit : option bool;
  outFormat : option OutFormat
}.

Record Result := mkResult {
  rows : option (list Row);
  rowsAffected : option Z;
  metaData : option (list string)
}.

Inductive DbCall :=
| InitOracleClient (libDir : option string)
| GetConnection (user password connectString : string)
| Ping (h : Handle)
| Execute (h : Handle) (sql : string) (binds : option Binds)
          (opts : option ExecuteOptions)
| Commit (h : Handle)
| Rollback (h : Handle)
| Close (h : Handle).

Definition Trace := list DbCall.

Record Driver := mkDriver {
  drv_initOracleClient : Trace -> option string -> Outcome unit;
  drv_getConnection : Trace -> string -> string -> string -> Outcome Handle;
  drv_ping : Trace -> Handle -> Outcome unit;
  drv_execute : Trace -> Handle -> string -> option Binds ->
                option ExecuteOptions -> Outcome Result;
  drv_commit : Trace -> Handle -> Outcome unit;
  drv_rollback : Trace -> Handle -> Outcome unit;
  drv_close : Trace -> Handle -> Outcome unit;
  (** [Date.now()] at the n-th read of the clock, in milliseconds. *)
  drv_now : nat -> Z
}.

(** What a manager and its executor are constructed over. *)
Record World := mkWorld {
  config : ServerConfig;
  env : string -> option string;
  driver : Driver
}.

(* ------------------------------------------------------------------------- *)
(** ** [Map<string, V>]: entries in insertion order, one per key *)

Module JsMap.
Section Ops.
Context {V : Type}.

Fixpoint get (k : string) (m : list (string * V)) : option V :=
  match m with
  | [] => None
  | (k', v) :: m' => if String.eqb k k' then Some v else get k m'
  end.

Fixpoint set (k : string) (v : V) (m : list (string * V))
  : list (string * V) :=
  match m with
  | [] => [(k, v)]
  | (k', v') :: m' =>
      if String.eqb k k' then (k, v) :: m' else (k', v') :: set k v m'
  end.

Definition delete (k : string) (m : list (string * V))
  : list (string * V) :=
  filter (fun e => negb (String.eqb k (fst e))) m.

Definition keys (m : list (string * V)) : list string := map fst m.
End Ops.
End JsMap.

(* ------------------------------------------------------------------------- *)
(** ** The state and exception monad of a call *)

Record State := mkState {
  connections : list (string * Handle);
  initialized : bool;
  trace : Trace;
  clock : nat
}.

Definition M (A : Type) : Type := State -> Outcome A * State.

Definition ret {A} (a : A) : M A := fun st => (Returned a, st).

Definition throw {A} (msg : string) : M A := fun st => (Thrown msg, st).

Definition bind {A B} (c : M A) (f : A -> M B) : M B :=
  fun st =>
    match c st with
    | (Returned a, st') => f a st'
    | (Thrown e, st') => (Thrown e, st')
    end.

(** [try { c } catch (e) { handler(e) }] *)
Definition try_catch {A} (c : M A) (handler : string -> M A) : M A :=
  fun st =>
    match c st with
    | (Returned a, st') => (Returned a, st')
    | (Thrown e, st') => handler e st'
    end.

Definition lift {A} (o : Outcome A) : M A := fun st => (o, st).

Declare Scope m_scope.
Delimit Scope m_scope with M.
Notation "x <- c1 ;; c2" := (bind c1 (fun x => c2))
  (at level 61, c1 at next level, right associativity) : m_scope.
Notation "c1 ;; c2" := (bind c1 (fun _ => c2))
  (at level 61, right associativity) : m_scope.
Local Open Scope m_scope.

(** A call to the driver: it is recorded, and answered from the calls made
    before it. *)
Definition invoke {A} (c : DbCall) (reply : Trace -> Outcome A) : M A :=
  fun st =>
    (reply (trace st),
     mkState (connections st) (initialized st) (c :: trace st) (clock st)).

Definition set_connections (f : list (string * Handle) -> list (string * Handle))
  : M unit :=
  fun st =>
    (Returned tt,
     mkState (f (connections st)) (initialized st) (trace st) (clock st)).

Definition set_initialized (b : bool) : M unit :=
  fun st => (Returned tt, mkState (connections st) b (trace st) (clock st)).

Definition get_state : M State := fun st => (Returned st, st).

(** [Date.now()] *)
Definition Date_now (w : World) : M Z :=
  fun st =>
    (Returned (drv_now (driver w) (clock st)),
     mkState (connections st) (initialized st) (trace st) (S (clock st))).

Definition db_initOracleClient (w : World) (libDir : option string) : M unit :=
  invoke (InitOracleClient libDir)
         (fun t => drv_initOracleClient (driver w) t libDir).
Definition db_getConnection (w : World) (user password dsn : string)
  : M Handle :=
  invoke (GetConnection user password dsn)
         (fun t => drv_getConnection (driver w) t user password dsn).
Definition db_ping (w : World) (h : Handle) : M unit :=
  invoke (Ping h) (fun t => drv_ping (driver w) t h).
Definition db_execute (w : World) (h : Handle) (sql : string)
    (binds : option Binds) (opts : option ExecuteOptions) : M Result :=
  invoke (Execute h sql binds opts)
         (fun t => drv_execute (driver w) t h sql binds opts).
Definition db_commit (w : World) (h : Handle) : M unit :=
  invoke (Commit h) (fun t => drv_commit (driver w) t h).
Definition db_rollback (w : World) (h : Handle) : M unit :=
  invoke (Rollback h) (fun t => drv_rollback (driver w) t h).
Definition db_close (w : World) (h : Handle) : M unit :=
  invoke (Close h) (fun t => drv_close (driver w) t h).

(* ------------------------------------------------------------------------- *)
(** ** [connection-manager.ts] *)

(** An optional string that is present and not empty. *)
Definition truthy_str (o : option string) : option string :=
  match o with
  | Some s => if Js.truthy s then Some s else None
  | None => None
  end.

(** [config.port || 1521] *)
Definition port_or_default (p : option Z) : Z :=
  match p with
  | Some z => if (z =? 0)%Z then 1521%Z else z
  | None => 1521%Z
  end.

Definition getPassword (w : World) (c : ConnectionConfig) : Outcome string :=
  match truthy_str (cc_password c) with
  | Some p => Returned p
  | None =>
      match truthy_str (cc_passwordEnv c) with
      | Some v =>
          match truthy_str (env w v) with
          | Some pwd => Returned pwd
          | None =>
              Thrown ("Environment variable '" ++ v
                      ++ "' not set for connection '" ++ cc_name c ++ "'")
          end
      | None =>
          Thrown ("No password configured for connection '"
                  ++ cc_name c ++ "'")
      end
  end.

Definition getDsn (c : ConnectionConfig) : Outcome string :=
  match truthy_str (cc_connectionString c) with
  | Some s => Returned s
  | None =>
      match truthy_str (cc_host c), truthy_str (cc_serviceName c),
            truthy_str (cc_sid c) with
      | Some h, Some svc, _ =>
          Returned (h ++ ":" ++ Js.of_Z (port_or_default (cc_port c))
                      ++ "/" ++ svc)
      | Some h, None, Some sid =>
          Returned ("(DESCRIPTION=(ADDRESS=(PROTOCOL=TCP)(HOST=" ++ h
                    ++ ")(PORT=" ++ Js.of_Z (port_or_default (cc_port c))
                    ++ "))(CONNECT_DATA=(SID=" ++ sid ++ ")))")
      | _, _, _ =>
          Thrown ("Connection '" ++ cc_name c
                  ++ "' requires either connectionString, or host with serviceName/sid")
      end
  end.

(** The index built by the constructor: [connectionConfigs.set(c.name, c)]
    for each configured connection, in order. *)
Definition connectionConfigs (w : World) : list (string * ConnectionConfig) :=
  fold_left (fun m c => JsMap.set (cc_name c) c m)
            (sc_connections (config w)) [].

Definition initialize (w : World) : M unit :=
  st <- get_state ;;
  if initialized st then ret tt
  else
    (match oracleClientMode (config w) with
     | THICK =>
         match truthy_str (oracleClientPath (config w)) with
         | Some libDir => db_initOracleClient w (Some libDir)
         | None => db_initOracleClient w None
         end
     | THIN => ret tt
     end) ;;
    set_initialized true.

Definition getConnectionConfig (w : World) (name : string)
  : Outcome ConnectionConfig :=
  match JsMap.get name (connectionConfigs w) with
  | Some c => Returned c
  | None =>
      let joined := Js.join ", " (JsMap.keys (connectionConfigs w)) in
      let available := if Js.truthy joined then joined else "none" in
      Thrown ("Connection '" ++ name
              ++ "' not found. Available connections: " ++ available)
  end.

Definition connect (w : World) (name : string) : M Handle :=
  initialize w ;;
  st <- get_state ;;
  let fresh : M Handle :=
    cfg <- lift (getConnectionConfig w name) ;;
    _ <- lift (getDsn cfg) ;;
    password <- lift (getPassword w cfg) ;;
    dsn <- lift (getDsn cfg) ;;
    connection <- db_getConnection w (cc_username cfg) password dsn ;;
    (match cc_mode cfg with
     | READONLY =>
         _ <- db_execute w connection "SET TRANSACTION READ ONLY" None None ;;
         ret tt
     | READWRITE => ret tt
     end) ;;
    set_connections (JsMap.set name connection) ;;
    ret connection in
  match JsMap.get name (connections st) with
  | Some existing =>
      reused <- try_catch (db_ping w existing ;; ret true)
                          (fun _ => set_connections (JsMap.delete name) ;;
                                    ret false) ;;
      if reused : bool then ret existing else fresh
  | None => fresh
  end.

(** [try { close } catch { log } finally { delete }]: the entry is evicted
    whether or not closing fails, and the failure is swallowed. *)
Definition disconnect (w : World) (name : string) : M bool :=
  st <- get_state ;;
  match JsMap.get name (connections st) with
  | Some connection =>
      try_catch (db_close w connection) (fun _ => ret tt) ;;
      set_connections (JsMap.delete name) ;;
      ret true
  | None => ret false
  end.

(** The body of the [for ... of] loop of [disconnectAll], over the snapshot
    of the keys. *)
Fixpoint disconnectAll_loop (w : World) (names : list string) (count : nat)
  : M nat :=
  match names with
  | [] => ret count
  | name :: rest =>
      closed <- disconnect w name ;;
      disconnectAll_loop w rest (if closed : bool then S count else count)
  end.

Definition disconnectAll (w : World) : M nat :=
  st <- get_state ;;
  disconnectAll_loop w (JsMap.keys (connections st)) 0.

Definition isConnected (w : World) (name : string) : M bool :=
  st <- get_state ;;
  match JsMap.get name (connections st) with
  | None => ret false
  | Some connection =>
      try_catch (db_ping w connection ;; ret true)
                (fun _ => set_connections (JsMap.delete name) ;; ret false)
  end.

(** [this.connections.get(name)!]: were the entry missing, the first use of
    the value would raise a TypeError. *)
Definition getConnection (w : World) (name : string) : M Handle :=
  alive <- isConnected w name ;;
  if alive : bool then
    st <- get_state ;;
    match JsMap.get name (connections st) with
    | Some connection => ret connection
    | None => throw "Cannot read properties of undefined"
    end
  else connect w name.

(* ------------------------------------------------------------------------- *)
(** ** [QueryResult] ([types.ts]) *)

Record QueryResult := mkQueryResult {
  qr_success : bool;
  qr_queryType : QueryType;
  qr_message : string;
  qr_columns : option (list string);
  qr_rows : option (list Row);
  qr_rowCount : option nat;
  qr_affectedRows : option Z;
  (** seconds: the difference of two clock reads over 1000 *)
  qr_executionTime : option Q;
  qr_warnings : option (list string);
  qr_error : option string
}.

(** A failure outcome: [success: false] with a message and an error, and
    optionally the elapsed time and warnings. *)
Definition failed (queryType : QueryType) (message error : string)
    (executionTime : option Q) (warns : option (list string)) : QueryResult :=
  mkQueryResult false queryType message None None None None
                executionTime warns (Some error).

(** [ws.length > 0 ? ws : undefined] *)
Definition if_nonempty (ws : list string) : option (list string) :=
  match ws with [] => None | _ => Some ws end.

(** [(Date.now() - startTime) / 1000] *)
Definition seconds (startTime endTime : Z) : Q :=
  ((endTime - startTime) # 1000)%Q.

(** [maxRows || this.defaultMaxRows]: [undefined] and 0 are falsy. *)
Definition effectiveMaxRows (maxRows : option Z) (default : Z) : Z :=
  match maxRows with
  | Some n => if (n =? 0)%Z then default else n
  | None => default
  end.

(** [params || {}] *)
Definition binds_or_empty (params : option Binds) : Binds :=
  match params with Some b => b | None => [] end.

(** [rows.slice(0, e)]: a negative [e] counts from the end. *)
Definition slice0 {A} (l : list A) (e : Z) : list A :=
  if (e <? 0)%Z then firstn (Z.to_nat (Z.of_nat (List.length l) + e)) l
  else firstn (Z.to_nat e) l.

Definition msg_select_only : string :=
  "execute_query only supports SELECT statements. Use execute_dml for other operations.".

Definition warn_limited (maxRows : Z) : string :=
  "ℹ️ Results limited to " ++ Js.of_Z maxRows ++ " rows. More rows available.".

Definition executeQuery (w : World) (connectionName sql : string)
    (maxRows : option Z) (params : option Binds) : M QueryResult :=
  let queryType := detectQueryType sql in
  if negb (QueryType_eqb queryType SELECT) then
    ret (failed queryType msg_select_only "Invalid query type" None None)
  else
    let maxRows := effectiveMaxRows maxRows (defaultMaxRows (config w)) in
    try_catch
      (connection <- getConnection w connectionName ;;
       startTime <- Date_now w ;;
       result <- db_execute w connection sql (Some (binds_or_empty params))
                   (Some (mkExecuteOptions (Some (Js.add maxRows 1)) None
                                           (Some OUT_FORMAT_ARRAY))) ;;
       endTime <- Date_now w ;;
       let executionTime := seconds startTime endTime in
       let columns := match metaData result with Some m => m | None => [] end in
       let rows := match rows result with Some r => r | None => [] end in
       let hasMore := (Z.of_nat (List.length rows) >? maxRows)%Z in
       let resultRows := if hasMore then slice0 rows maxRows else rows in
       let warnings := if hasMore then [warn_limited maxRows] else [] in
       ret (mkQueryResult true queryType
              ("Query executed successfully. Found "
               ++ Js.of_nat (List.length resultRows) ++ " row(s).")
              (Some columns) (Some resultRows)
              (Some (List.length resultRows)) None (Some executionTime)
              (if_nonempty warnings) None))
      (fun error =>
         ret (failed queryType ("Query failed: " ++ error) error None None)).

Definition msg_blocked (warnings : list string) : string :=
  "This operation is blocked for safety. " ++ Js.join " " warnings.

(** The outcome of the critical-severity block, in [executeDml] and in
    [executePlsql]. *)
Definition blocked (queryType : QueryType) (warnings : list string)
  : QueryResult :=
  failed queryType (msg_blocked warnings) "Dangerous operation blocked"
         None (Some warnings).

(** The outcome of the read-only gate; [message] is the sentence that names the
    refused operation. *)
Definition read_only_denied (queryType : QueryType) (message : string)
  : QueryResult :=
  failed queryType message "Connection is read-only" None None.

(** The [try] block of [executeDml]. *)
Definition executeDml_try (w : World) (connectionName sql : string)
    (params : option Binds) (commit : bool) (queryType : QueryType)
    (warnings : list string) : M QueryResult :=
  try_catch
    (connection <- getConnection w connectionName ;;
     startTime <- Date_now w ;;
     result <- db_execute w connection sql (Some (binds_or_empty params))
                 (Some (mkExecuteOptions None (Some false) None)) ;;
     let affectedRows :=
       match rowsAffected result with Some n => n | None => 0%Z end in
     endTime <- Date_now w ;;
     let executionTime := seconds startTime endTime in
     commitMsg <- (if commit
                   then db_commit w connection ;; ret "Changes committed."
                   else ret "Changes NOT committed (auto-commit disabled).") ;;
     ret (mkQueryResult true queryType
            ("Statement executed successfully. " ++ Js.of_Z affectedRows
             ++ " row(s) affected. " ++ commitMsg)
            None None None (Some affectedRows) (Some executionTime)
            (if_nonempty warnings) None))
    (fun error =>
       try_catch (connection <- getConnection w connectionName ;;
                  db_rollback w connection)
                 (fun _ => ret tt) ;;
       ret (failed queryType ("Statement failed: " ++ error) error None
                   (if_nonempty warnings))).

Definition executeDml (w : World) (connectionName sql : string)
    (params : option Binds) (commit : bool) : M QueryResult :=
  let queryType := detectQueryType sql in
  cfg <- lift (getConnectionConfig w connectionName) ;;
  match cc_mode cfg with
  | READONLY =>
      ret (read_only_denied queryType
             ("Connection '" ++ connectionName
              ++ "' is configured as READ ONLY. DML operations are not allowed."))
  | READWRITE =>
      let a := assessDangerLevel sql queryType in
      if DangerLevel_eqb (level a) CRITICAL then
        ret (blocked queryType (warnings a))
      else
        executeDml_try w connectionName sql params commit queryType
                       (warnings a)
  end.

(** [/\bCREATE\s+(OR\s+REPLACE\s+)?(PROCEDURE|FUNCTION|PACKAGE|TRIGGER|TYPE|VIEW)\b/i],
    the expression that lets a critical statement through in [executePlsql]. *)
Definition allowedCreate : regex :=
  seqs [WordB; lit "CREATE"; PlusA ASpace;
        Opt (Group 1 (seqs [lit "OR"; PlusA ASpace; lit "REPLACE";
                            PlusA ASpace]));
        Group 2 (alts ["PROCEDURE"; "FUNCTION"; "PACKAGE"; "TRIGGER"; "TYPE";
                       "VIEW"]);
        WordB].

(** [/CREATE\s+(OR\s+REPLACE\s+)?(PROCEDURE|FUNCTION|PACKAGE|TRIGGER|TYPE)\s+(\w+)/i],
    which names the object whose compilation status is looked up. *)
Definition createdObject : regex :=
  seqs [lit "CREATE"; PlusA ASpace;
        Opt (Group 1 (seqs [lit "OR"; PlusA ASpace; lit "REPLACE";
                            PlusA ASpace]));
        Group 2 (alts ["PROCEDURE"; "FUNCTION"; "PACKAGE"; "TRIGGER"; "TYPE"]);
        PlusA ASpace;
        Group 3 (PlusA AWord)].

Definition newline : string := String (ascii_of_nat 10) EmptyString.

Definition sql_object_status : string :=
  "SELECT status FROM user_objects WHERE object_name = :name AND object_type = :type".

Definition sql_object_errors : string :=
  "SELECT line, position, text FROM user_errors " ++ newline
  ++ "                 WHERE name = :name AND type = :type " ++ newline
  ++ "                 ORDER BY sequence".

(** [row[i]] inside a template. *)
Definition cell (row : Row) (i : nat) : string := nth i row "undefined".

Definition error_line (row : Row) : string :=
  "  Line " ++ cell row 0 ++ ", Col " ++ cell row 1 ++ ": " ++ cell row 2.

(** The status lookup that follows a successful CREATE of a routine: the
    status when one was read, or the compilation failure to return. *)
Definition compilationCheck (w : World) (connection : Handle) (plsql : string)
    (queryType : QueryType) (executionTime : Q)
  : M (option string + QueryResult) :=
  if Js.includes (Js.toUpperCase plsql) "CREATE" then
    match exec true createdObject plsql with
    | Some m =>
        let objType :=
          Js.toUpperCase (match cap 2 m with Some s => s | None => "" end) in
        let objName :=
          Js.toUpperCase (match cap 3 m with Some s => s | None => "" end) in
        let binds := [("name", objName); ("type", objType)] in
        statusResult <- db_execute w connection sql_object_status
                          (Some binds) None ;;
        match rows statusResult with
        | Some (row0 :: _) =>
            let compilationStatus := nth_error row0 0 in
            if match compilationStatus with
               | Some s => negb (String.eqb s "VALID")
               | None => true
               end
            then
              errorsResult <- db_execute w connection sql_object_errors
                                (Some binds) None ;;
              match rows errorsResult with
              | Some (e :: es) =>
                  let errorDetails :=
                    Js.join newline (map error_line (e :: es)) in
                  ret (inr (failed queryType
                              ("PL/SQL compiled with errors:" ++ newline
                               ++ errorDetails)
                              ("Compilation failed for " ++ objType ++ " "
                               ++ objName)
                              (Some executionTime) None))
              | _ => ret (inl compilationStatus)
              end
            else ret (inl compilationStatus)
        | _ => ret (inl None)
        end
    | None => ret (inl None)
    end
  else ret (inl None).

(** The [try] block of [executePlsql]. *)
Definition executePlsql_try (w : World) (connectionName plsql : string)
    (params : option Binds) (commit : bool) (queryType : QueryType)
    (warnings : list string) : M QueryResult :=
  try_catch
    (connection <- getConnection w connectionName ;;
     startTime <- Date_now w ;;
     _ <- db_execute w connection plsql (Some (binds_or_empty params))
            (Some (mkExecuteOptions None (Some false) None)) ;;
     endTime <- Date_now w ;;
     let executionTime := seconds startTime endTime in
     (if commit then db_commit w connection else ret tt) ;;
     checked <- compilationCheck w connection plsql queryType executionTime ;;
     match checked with
     | inr compileFailure => ret compileFailure
     | inl compilationStatus =>
         let statusMsg :=
           match truthy_str compilationStatus with
           | Some s => " Object status: " ++ s ++ "."
           | None => ""
           end in
         ret (mkQueryResult true queryType
                ("PL/SQL executed successfully." ++ statusMsg)
                None None None None (Some executionTime)
                (if_nonempty warnings) None)
     end)
    (fun error =>
       ret (failed queryType ("PL/SQL execution failed: " ++ error) error None
                   (if_nonempty warnings))).

Definition executePlsql (w : World) (connectionName plsql : string)
    (params : option Binds) (commit : bool) : M QueryResult :=
  let queryType := detectQueryType plsql in
  cfg <- lift (getConnectionConfig w connectionName) ;;
  match cc_mode cfg with
  | READONLY =>
      ret (read_only_denied queryType
             ("Connection '" ++ connectionName
              ++ "' is configured as READ ONLY. PL/SQL execution is not allowed."))
  | READWRITE =>
      let a := assessDangerLevel plsql queryType in
      if DangerLevel_eqb (level a) CRITICAL
         && negb (test true allowedCreate plsql) then
        ret (blocked queryType (warnings a))
      else
        executePlsql_try w connectionName plsql params commit queryType
                         (warnings a)
  end.

Definition rollback (w : World) (connectionName : string) : M QueryResult :=
  try_catch
    (connection <- getConnection w connectionName ;;
     db_rollback w connection ;;
     ret (mkQueryResult true OTHER
            ("Transaction rolled back on '" ++ connectionName ++ "'.")
            None None None None None None None))
    (fun error =>
       ret (failed OTHER ("Rollback failed: " ++ error) error None None)).

Definition commit (w : World) (connectionName : string) : M QueryResult :=
  cfg <- lift (getConnectionConfig w connectionName) ;;
  match cc_mode cfg with
  | READONLY =>
      ret (read_only_denied OTHER
             ("Connection '" ++ connectionName
              ++ "' is READ ONLY. Cannot commit."))
  | READWRITE =>
      try_catch
        (connection <- getConnection w connectionName ;;
         db_commit w connection ;;
         ret (mkQueryResult true OTHER
                ("Transaction committed on '" ++ connectionName ++ "'.")
                None None None None None None None))
        (fun error =>
           ret (failed OTHER ("Commit failed: " ++ error) error None None))
  end.


(* ------------------------------------------------------------------------- *)
(** ** [listConnections] and [testConnection] ([connection-manager.ts]) *)

Record ConnectionInfo := mkConnectionInfo {
  ci_name : string;
  ci_host : option string;
  ci_port : option Z;
  ci_service : option string;
  ci_username : string;
  ci_mode : ConnectionMode;
  ci_connected : bool
}.

Record ConnectionTestResult := mkConnectionTestResult {
  ct_success : bool;
  ct_name : string;
  ct_database : option string;
  ct_schema : option string;
  ct_version : option string;
  ct_mode : option ConnectionMode;
  ct_error : option string;
  ct_message : string
}.

(** [a || b] on optional strings: [a] when it is present and not empty,
    otherwise [b] as it is. *)
Definition or_str (a b : option string) : option string :=
  match truthy_str a with Some s => Some s | None => b end.

(** [a || lit] with a literal that is not empty. *)
Definition or_lit (a : option string) (lit : string) : string :=
  match truthy_str a with Some s => s | None => lit end.

(** The entry that [listConnections] pushes for one configured connection. *)
Definition connectionInfo (name : string) (c : ConnectionConfig)
    (connected : bool) : ConnectionInfo :=
  mkConnectionInfo name
    (Some (or_lit (cc_host c) "(connection string)"))
    (match truthy_str (cc_host c) with
     | Some _ => cc_port c
     | None => None
     end)
    (Some (match truthy_str (cc_serviceName c) with
           | Some s => s
           | None => or_lit (cc_sid c) "(in connection string)"
           end))
    (cc_username c) (cc_mode c) connected.

(** The [for ... of] loop of [listConnections] over the configured entries. *)
Fixpoint listConnections_loop (w : World)
    (entries : list (string * ConnectionConfig))
    (result : list ConnectionInfo) : M (list ConnectionInfo) :=
  match entries with
  | [] => ret result
  | (name, c) :: rest =>
      connected <- isConnected w name ;;
      listConnections_loop w rest (result ++ [connectionInfo name c connected])
  end.

Definition listConnections (w : World) : M (list ConnectionInfo) :=
  listConnections_loop w (connectionConfigs w) [].

Definition sql_version : string :=
  "SELECT banner FROM v$version WHERE ROWNUM = 1".
Definition sql_db_name : string :=
  "SELECT SYS_CONTEXT('USERENV', 'DB_NAME') FROM DUAL".
Definition sql_current_schema : string :=
  "SELECT SYS_CONTEXT('USERENV', 'CURRENT_SCHEMA') FROM DUAL".

(** [if (r.rows && r.rows.length > 0) { x = r.rows[0][0]; }]: the first cell
    of the first row replaces the current value; a first row without cells
    leaves [undefined]. *)
Definition first_cell_or (current : option string) (r : Result)
  : option string :=
  match rows r with
  | Some (row0 :: _) => nth_error row0 0
  | _ => current
  end.

Definition testConnection (w : World) (name : string)
  : M ConnectionTestResult :=
  cfg <- lift (getConnectionConfig w name) ;;
  try_catch
    (connection <- connect w name ;;
     version <- try_catch
                  (versionResult <- db_execute w connection sql_version
                                      None None ;;
                   ret (first_cell_or (Some "Unknown") versionResult))
                  (fun _ => ret (Some "Unknown")) ;;
     dbNameResult <- db_execute w connection sql_db_name None None ;;
     let dbName := first_cell_or (Some "Unknown") dbNameResult in
     schemaResult <- db_execute w connection sql_current_schema None None ;;
     let schema := first_cell_or (Some "Unknown") schemaResult in
     ret (mkConnectionTestResult true name dbName schema version
            (Some (cc_mode cfg)) None
            ("Successfully connected to '" ++ name ++ "'")))
    (fun error =>
       ret (mkConnectionTestResult false name None None None None
              (Some error)
              ("Failed to connect to '" ++ name ++ "': " ++ error))).

(* ------------------------------------------------------------------------- *)
(** ** [parseConfig] ([connection-manager.ts])

    The raw configuration is taken with the shape that the casts of
    [parseConfig] assume: every field is absent or has the type its cast
    names, and a connection has a name. *)

Record RawOracleClient := mkRawOracleClient {
  roc_mode : option string;
  roc_path : option string
}.

Record RawSettings := mkRawSettings {
  rs_default_max_rows : option Z;
  rs_defaultMaxRows : option Z;
  rs_query_timeout : option Z;
  rs_queryTimeout : option Z
}.

Record RawConnection := mkRawConnection {
  rc_name : string;
  rc_host : option string;
  rc_port : option Z;
  rc_service_name : option string;
  rc_serviceName : option string;
  rc_sid : option string;
  rc_connection_string : option string;
  rc_connectionString : option string;
  rc_username : option string;
  rc_password : option string;
  rc_password_env : option string;
  rc_passwordEnv : option string;
  rc_mode : option string
}.

Record RawConfig := mkRawConfig {
  raw_oracle_client : option RawOracleClient;
  raw_oracleClient : option RawOracleClient;
  raw_settings : option RawSettings;
  raw_connections : option (list RawConnection)
}.

Definition lower_char (c : ascii) : ascii :=
  if Js.in_range 65 90 c then ascii_of_N (Js.code c + 32) else c.

Fixpoint toLowerCase (s : string) : string :=
  match s with
  | EmptyString => EmptyString
  | String c s' => String (lower_char c) (toLowerCase s')
  end.

(** [a || b || d] on optional integers: 0 and [undefined] are falsy. *)
Definition or_Z (a b : option Z) (d : Z) : Z :=
  match a with
  | Some x => if (x =? 0)%Z then
                match b with
                | Some y => if (y =? 0)%Z then d else y
                | None => d
                end
              else x
  | None =>
      match b with
      | Some y => if (y =? 0)%Z then d else y
      | None => d
      end
  end.

(** [modeStr === 'readwrite' ? READWRITE : READONLY] with
    [modeStr = (mode || 'readonly').toLowerCase()]. *)
Definition parseMode (mode : option string) : ConnectionMode :=
  if String.eqb (toLowerCase (or_lit mode "readonly")) "readwrite"
  then READWRITE else READONLY.

Definition parseConnection (c : RawConnection) : ConnectionConfig :=
  mkConnectionConfig
    (rc_name c)
    (match truthy_str (rc_username c) with Some u => u | None => "" end)
    (parseMode (rc_mode c))
    (rc_host c)
    (Some (or_Z (rc_port c) None 1521%Z))
    (or_str (rc_service_name c) (rc_serviceName c))
    (rc_sid c)
    (or_str (rc_connection_string c) (rc_connectionString c))
    (rc_password c)
    (or_str (rc_password_env c) (rc_passwordEnv c)).

Definition parseConfig (rawConfig : RawConfig) : ServerConfig :=
  let oracleClient :=
    match raw_oracle_client rawConfig with
    | Some o => o
    | None =>
        match raw_oracleClient rawConfig with
        | Some o => o
        | None => mkRawOracleClient None None
        end
    end in
  let settings :=
    match raw_settings rawConfig with
    | Some s => s
    | None => mkRawSettings None None None None
    end in
  let clientModeStr := toLowerCase (or_lit (roc_mode oracleClient) "thin") in
  mkServerConfig
    (if String.eqb clientModeStr "thick" then THICK else THIN)
    (roc_path oracleClient)
    (or_Z (rs_default_max_rows settings) (rs_defaultMaxRows settings) 100%Z)
    (or_Z (rs_query_timeout settings) (rs_queryTimeout settings) 30%Z)
    (map parseConnection
         (match raw_connections rawConfig with Some l => l | None => [] end)).

(* ------------------------------------------------------------------------- *)
(** ** The executor calls of the tool dispatcher ([executeTool])

    The dispatcher reads the arguments of a tool call, calls the executor and
    renders the outcome as text.  These are its executor calls for
    execute_query and execute_dml, before rendering. *)

(** [(args.max_rows as number) || 100] *)
Definition tool_max_rows (max_rows : option Z) : Z :=
  match max_rows with
  | Some n => if (n =? 0)%Z then 100%Z else n
  | None => 100%Z
  end.

(** [args.commit !== false] *)
Definition tool_commit (commit_arg : option bool) : bool :=
  match commit_arg with Some false => false | _ => true end.

Definition tool_execute_query (w : World) (connName sql : string)
    (max_rows : option Z) : M QueryResult :=
  executeQuery w connName sql (Some (tool_max_rows max_rows)) None.

Definition tool_execute_dml (w : World) (connName sql : string)
    (commit_arg : option bool) : M QueryResult :=
  executeDml w connName sql None (tool_commit commit_arg).

(* ------------------------------------------------------------------------- *)
(** ** The Markdown table of the formatters

    [padRight], [padLeft] and [createMarkdownTable], with which every outcome
    and every listing is rendered.  A width is a length, hence a [nat]. *)

(** [s.repeat(n)] *)
Fixpoint repeat_str (s : string) (n : nat) : string :=
  match n with
  | O => EmptyString
  | S n' => s ++ repeat_str s n'
  end.

(** [str + ' '.repeat(Math.max(0, len - str.length))] *)
Definition padRight (str : string) (len : nat) : string :=
  str ++ repeat_str " " (len - String.length str).

(** [' '.repeat(Math.max(0, len - str.length)) + str] *)
Definition padLeft (str : string) (len : nat) : string :=
  repeat_str " " (len - String.length str) ++ str.

(** [s.slice(b, e)]: a negative index counts from the end. *)
Definition slice_str (s : string) (b e : Z) : string :=
  let len := Z.of_nat (String.length s) in
  let from := if (b <? 0)%Z then Z.max (len + b) 0 else Z.min b len in
  let to := if (e <? 0)%Z then Z.max (len + e) 0 else Z.min e len in
  substring (Z.to_nat from) (Z.to_nat (to - from)) s.

Inductive Align := AlignLeft | AlignRight | AlignCenter.

(** [l.map((x, i) => f(x, i))], from index [i]. *)
Fixpoint mapi_from {A B} (f : A -> nat -> B) (i : nat) (l : list A) : list B :=
  match l with
  | [] => []
  | x :: l' => f x i :: mapi_from f (S i) l'
  end.

Definition mapi {A B} (f : A -> nat -> B) (l : list A) : list B :=
  mapi_from f 0 l.

(** [String(row[i] ?? '').length] *)
Definition cell_width (row : list string) (i : nat) : nat :=
  match nth_error row i with
  | Some c => String.length c
  | None => 0
  end.

(** [Math.max(h.length, maxRowWidth, 3)] with [maxRowWidth] the [reduce] over
    the rows. *)
Definition column_width (rows : list (list string)) (h : string) (i : nat)
  : nat :=
  let maxRowWidth :=
    fold_left (fun mx row => Nat.max mx (cell_width row i)) rows 0 in
  Nat.max (String.length h) (Nat.max maxRowWidth 3).

(** [alignments?.[i] || 'left'] *)
Definition align_at (alignments : option (list Align)) (i : nat) : Align :=
  match alignments with
  | Some al =>
      match nth_error al i with
      | Some a => a
      | None => AlignLeft
      end
  | None => AlignLeft
  end.

(** A cell of the separator row. *)
Definition separator_cell (alignments : option (list Align)) (w i : nat)
  : string :=
  let dashes := repeat_str "-" w in
  match align_at alignments i with
  | AlignRight => slice_str dashes 0 (-1) ++ ":"
  | AlignCenter => ":" ++ slice_str dashes 1 (-1) ++ ":"
  | AlignLeft => dashes
  end.

(** A cell of a data row.  Beyond the last column [colWidths[i]] is
    [undefined], the difference is [NaN] and nothing is added. *)
Definition data_cell (alignments : option (list Align)) (colWidths : list nat)
    (cell : string) (i : nat) : string :=
  match nth_error colWidths i with
  | Some w =>
      match align_at alignments i with
      | AlignRight => padLeft cell w
      | _ => padRight cell w
      end
  | None => cell
  end.

(** ['| ' + cells.join(' | ') + ' |'] *)
Definition table_row (cells : list string) : string :=
  "| " ++ Js.join " | " cells ++ " |".

(** The lines that [createMarkdownTable] joins: the header row, the separator
    row and the data rows. *)
Definition createMarkdownTable_lines (headers : list string)
    (rows : list (list string)) (alignments : option (list Align))
  : list string :=
  let colWidths := mapi (column_width rows) headers in
  let headerRow :=
    table_row (mapi (fun h i => padRight h (nth i colWidths 0)) headers) in
  let separatorRow :=
    table_row (mapi (fun _ i => separator_cell alignments
                                  (nth i colWidths 0) i) headers) in
  let dataRows :=
    map (fun row => table_row (mapi (data_cell alignments colWidths) row))
        rows in
  headerRow :: separatorRow :: dataRows.

Definition createMarkdownTable (headers : list string)
    (rows : list (list string)) (alignments : option (list Align)) : string :=
  match headers with
  | [] => EmptyString
  | _ => Js.join newline (createMarkdownTable_lines headers rows alignments)
  end.
(* ------------------------------------------------------------------------- *)
(** ** Vocabulary of the properties *)

(** [st'] continues [st]: the driver calls of [st] are the oldest of [st']. *)
Definition extends (st st' : State) : Prop :=
  exists later, trace st' = (later ++ trace st)%list.

(** A computation only ever adds to the record of driver calls. *)
Definition mono {A} (c : M A) : Prop := forall st, extends st (snd (c st)).

(** A computation always returns: no exception escapes it. *)
Definition total {A} (c : M A) : Prop :=
  forall st, exists a, fst (c st) = Returned a.

(** The text starts with one of the ten keywords that [detectQueryType]
    tests before it looks for a procedural block. *)
Definition leading_keyword (s : string) : bool :=
  Js.startsWith s "SELECT" || Js.startsWith s "INSERT"
  || Js.startsWith s "UPDATE" || Js.startsWith s "DELETE"
  || Js.some_startsWith ddl_keywords s.

(** None of the tests of [detectQueryType] succeeds on the text. *)
Definition matches_no_rule (s : string) : bool :=
  negb (leading_keyword s)
  && negb (Js.some_startsWith plsql_keywords s)
  && negb (Js.includes s "CREATE OR REPLACE").

(** Every result that a computation returns satisfies [P]. *)
Definition post {A} (P : A -> Prop) (c : M A) : Prop :=
  forall st a st', c st = (Returned a, st') -> P a.

(** The exception to the critical block as the spec words it, a CREATE OR
    REPLACE of a PROCEDURE, FUNCTION, PACKAGE, TRIGGER, TYPE or VIEW:
    [/\bCREATE\s+OR\s+REPLACE\s+(PROCEDURE|FUNCTION|PACKAGE|TRIGGER|TYPE|VIEW)\b/i].
    The code's expression is [allowedCreate]. *)
Definition spec_createOrReplace : regex :=
  seqs [WordB; lit "CREATE"; PlusA ASpace; lit "OR"; PlusA ASpace;
        lit "REPLACE"; PlusA ASpace;
        Group 1 (alts ["PROCEDURE"; "FUNCTION"; "PACKAGE"; "TRIGGER"; "TYPE";
                       "VIEW"]);
        WordB].

(** The options of the statement call of [executeDml] and [executePlsql]:
    [{ autoCommit: false }]. *)
Definition no_autocommit : option ExecuteOptions :=
  Some (mkExecuteOptions None (Some false) None).

(** The options of the query call of [executeQuery] for a row cap:
    [{ maxRows: cap + 1, outFormat: OUT_FORMAT_ARRAY }], the sum being the
    one of numbers. *)
Definition query_options (cap : Z) : option ExecuteOptions :=
  Some (mkExecuteOptions (Some (Js.add cap 1)) None (Some OUT_FORMAT_ARRAY)).

(** One of the three expressions that make a statement critical matches. *)
Definition critical_pattern (sql : string) : bool :=
  test true DANGEROUS_PATTERNS.drop sql
  || test true DANGEROUS_PATTERNS.truncate sql
  || test true DANGEROUS_PATTERNS.alterSystem sql.

(* ------------------------------------------------------------------------- *)
(** ** A concrete world, on which the properties are exercised

    Two configured connections, a read-write one and a read-only one whose
    password comes from the environment, over a driver that hands out session
    handles, answers every query with two rows and fails to close. *)

Definition dev_conn : ConnectionConfig :=
  mkConnectionConfig "dev" "scott" READWRITE (Some "localhost") (Some 1521%Z)
    (Some "XEPDB1") None None (Some "tiger") None.

Definition prod_conn : ConnectionConfig :=
  mkConnectionConfig "prod" "reader" READONLY (Some "db.example.com") None
    None (Some "ORCL") None None (Some "PROD_PW").

Definition example_config : ServerConfig :=
  mkServerConfig THIN None 100%Z 30%Z [dev_conn; prod_conn].

Definition two_rows : Result :=
  mkResult (Some [["1"; "a"]; ["2"; "b"]]) None (Some ["ID"; "NAME"]).

Definition example_driver : Driver :=
  mkDriver (fun _ _ => Returned tt)
           (fun t _ _ _ => Returned (List.length t))
           (fun _ _ => Returned tt)
           (fun _ _ _ _ _ => Returned two_rows)
           (fun _ _ => Returned tt)
           (fun _ _ => Returned tt)
           (fun _ _ => Thrown "ORA-03113: end-of-file on communication channel")
           (fun n => (1000 + 250 * Z.of_nat n)%Z).

Definition example_env (v : string) : option string :=
  if String.eqb v "PROD_PW" then Some "s3cret" else None.

Definition example_world : World :=
  mkWorld example_config example_env example_driver.

(** No session cached, nothing initialised, no driver call made. *)
Definition fresh_state : State := mkState [] false [] 0.

(** Both sessions cached. *)
Definition connected_state : State :=
  mkState [("dev", 3); ("prod", 5)] true [Ping 5; Ping 3] 0.

(* ------------------------------------------------------------------------- *)
(** ** Further vocabulary *)

(** Every character of the text is blank. *)
Fixpoint all_space (s : string) : bool :=
  match s with
  | EmptyString => true
  | String c s' => Js.is_space c && all_space s'
  end.

(** Every code unit of the text is below 128. *)
Fixpoint all_ascii (s : string) : bool :=
  match s with
  | EmptyString => true
  | String c s' => (Js.code c <? 128)%N && all_ascii s'
  end.

(** Every character of the text is a space. *)
Fixpoint only_spaces (s : string) : bool :=
  match s with
  | EmptyString => true
  | String c s' => Ascii.eqb c " " && only_spaces s'
  end.

(** The previous character, upper-cased. *)
Definition upper_prev (p : option ascii) : option ascii :=
  option_map Js.upper_char p.

Definition is_some {A} (o : option A) : bool :=
  match o with Some _ => true | None => false end.

(** Two continuations of the matcher that succeed together, the second on
    the upper-cased input, whatever captures they are given. *)
Definition cont_upper (k k' : Cont) : Prop :=
  forall p s cs cs',
    is_some (k p s cs) = is_some (k' (upper_prev p) (Js.toUpperCase s) cs').

(** A computation takes every state to one that is [R]-related to it. *)
Definition respects (R : State -> State -> Prop) {A} (c : M A) : Prop :=
  forall st, R st (snd (c st)).

(** The state after one more driver call. *)
Definition push (c : DbCall) (st : State) : State :=
  mkState (connections st) (initialized st) (c :: trace st) (clock st).

(** The session cache holds at most one session per connection name. *)
Definition distinct_names (st : State) : Prop :=
  NoDup (JsMap.keys (connections st)).

(** An update of the cache that keeps its names distinct. *)
Definition keeps_keys_distinct
    (f : list (string * Handle) -> list (string * Handle)) : Prop :=
  forall m, NoDup (JsMap.keys m) -> NoDup (JsMap.keys (f m)).

Definition keeps_distinct (st st' : State) : Prop :=
  distinct_names st -> distinct_names st'.

Definition is_ping (c : DbCall) : bool :=
  match c with Ping _ => true | _ => false end.

(** The only driver calls made between two states are liveness probes, and
    no session was added to the cache. *)
Definition only_pings (st st' : State) : Prop :=
  (exists later,
      trace st' = (later ++ trace st)%list /\ forallb is_ping later = true)
  /\ forall k h,
       JsMap.get k (connections st') = Some h ->
       JsMap.get k (connections st) = Some h.

(** A driver on which every statement fails. *)
Definition failing_driver : Driver :=
  mkDriver (fun _ _ => Returned tt)
           (fun t _ _ _ => Returned (List.length t))
           (fun _ _ => Returned tt)
           (fun _ _ _ _ _ => Thrown "ORA-00942: table or view does not exist")
           (fun _ _ => Returned tt)
           (fun _ _ => Thrown "ORA-03114: not connected to ORACLE")
           (fun _ _ => Returned tt)
           (fun n => (1000 + 250 * Z.of_nat n)%Z).

Definition failing_world : World :=
  mkWorld example_config example_env failing_driver.

(** The example configuration in thick mode, with a directory for the client
    library. *)
Definition thick_world : World :=
  mkWorld (mkServerConfig THICK (Some "/opt/oracle/instantclient") 100%Z 30%Z
                          [dev_conn; prod_conn])
          example_env example_driver.

(** A driver whose sessions no longer answer the probe. *)
Definition stale_driver : Driver :=
  mkDriver (fun _ _ => Returned tt)
           (fun t _ _ _ => Returned (List.length t))
           (fun _ _ => Thrown "NJS-003: invalid connection")
           (fun _ _ _ _ _ => Returned two_rows)
           (fun _ _ => Returned tt)
           (fun _ _ => Returned tt)
           (fun _ _ => Returned tt)
           (fun n => (1000 + 250 * Z.of_nat n)%Z).

Definition stale_world : World :=
  mkWorld example_config example_env stale_driver.

(** The part of [connect] that opens a session: what follows the reuse of a
    cached one. *)
Definition connect_fresh (w : World) (name : string) : M Handle :=
  (cfg <- lift (getConnectionConfig w name) ;;
   _ <- lift (getDsn cfg) ;;
   password <- lift (getPassword w cfg) ;;
   dsn <- lift (getDsn cfg) ;;
   connection <- db_getConnection w (cc_username cfg) password dsn ;;
   (match cc_mode cfg with
    | READONLY =>
        _ <- db_execute w connection "SET TRANSACTION READ ONLY" None None ;;
        ret tt
    | READWRITE => ret tt
    end) ;;
   set_connections (JsMap.set name connection) ;;
   ret connection)%M.

(** Every result that a computation returns satisfies [Q] together with the
    state it is returned in. *)
Definition post_state {A} (Q : A -> State -> Prop) (c : M A) : Prop :=
  forall st a st', c st = (Returned a, st') -> Q a st'.

(** The state once the client library is initialised. *)
Definition initialised (st : State) : State :=
  mkState (connections st) true (trace st) (clock st).

(** The client library needs no initialisation, or has been initialised. *)
Definition client_ready (w : World) (st : State) : Prop :=
  oracleClientMode (config w) = THIN \/ initialized st = true.

(** The call that puts a session into a read-only transaction. *)
Definition set_read_only (h : Handle) : DbCall :=
  Execute h "SET TRANSACTION READ ONLY" None None.

(** The configured connection that [name] denotes: the last one of the list
    that bears the name. *)
Definition last_named (name : string) (l : list ConnectionConfig)
  : option ConnectionConfig :=
  find (fun c => String.eqb name (cc_name c)) (rev l).

(** A driver on which only the version query fails. *)
Definition no_version_driver : Driver :=
  mkDriver (fun _ _ => Returned tt)
           (fun t _ _ _ => Returned (List.length t))
           (fun _ _ => Returned tt)
           (fun _ _ sql _ _ =>
              if String.eqb sql sql_version
              then Thrown "ORA-00942: table or view does not exist"
              else Returned two_rows)
           (fun _ _ => Returned tt)
           (fun _ _ => Returned tt)
           (fun _ _ => Returned tt)
           (fun n => (1000 + 250 * Z.of_nat n)%Z).

Definition no_version_world : World :=
  mkWorld example_config example_env no_version_driver.

(** The statement call of [executeDml] and [executePlsql] on a session. *)
Definition statement_call (h : Handle) (sql : string) (params : option Binds)
  : DbCall :=
  Execute h sql (Some (binds_or_empty params)) no_autocommit.

(** The query call of [executeQuery] on a session. *)
Definition query_call (h : Handle) (sql : string) (params : option Binds)
    (cap : Z) : DbCall :=
  Execute h sql (Some (binds_or_empty params)) (query_options cap).

(** The commit that follows a statement when the caller asks for it. *)
Definition commit_calls (commit_flag : bool) (h : Handle) : list DbCall :=
  if commit_flag then [Commit h] else [].

(** The type and the name of the created object, as the status lookup binds
    them: the second and third groups of [createdObject], upper-cased. *)
Definition created_type (m : Caps) : string :=
  Js.toUpperCase (match cap 2 m with Some s => s | None => "" end).

Definition created_name (m : Caps) : string :=
  Js.toUpperCase (match cap 3 m with Some s => s | None => "" end).

Definition status_binds (m : Caps) : option Binds :=
  Some [("name", created_name m); ("type", created_type m)].

(** The raw connections of a configuration: [rawConfig.connections || []]. *)
Definition raw_connection_list (raw : RawConfig) : list RawConnection :=
  match raw_connections raw with Some l => l | None => [] end.

(** The world with another default row cap and everything else the same. *)
Definition with_defaultMaxRows (w : World) (d : Z) : World :=
  mkWorld (mkServerConfig (oracleClientMode (config w))
                          (oracleClientPath (config w)) d
                          (queryTimeout (config w))
                          (sc_connections (config w)))
          (env w) (driver w).




(** The length of every line of a table whose columns have the widths [ws]:
    two characters of margin on each side and three between columns. *)
Definition table_width (ws : list nat) : nat :=
  4 + list_sum ws + 3 * (List.length ws - 1).

(** Every row has as many cells as there are headers. *)
Definition rectangular (headers : list string) (rows : list (list string))
  : Prop :=
  Forall (fun row => List.length row = List.length headers) rows.

(** An optional text that is given and not empty. *)
Definition present (o : option string) : Prop :=
  exists s, o = Some s /\ s <> EmptyString.

(* ========================================================================= *)
(** * Properties *)

Local Open Scope list_scope.

(** ** Worked evaluations of the classifier and of the assessor *)

Example detect_select_dual : detectQueryType "  select 1 from dual" = SELECT.
Proof. reflexivity. Qed.

Example detect_create_or_replace_function :
  detectQueryType "CREATE OR REPLACE FUNCTION f ..." = DDL.
Proof. reflexivity. Qed.

Example detect_commented_create_or_replace :
  detectQueryType
    "/* v2 */ create or replace function f return number is begin return 1; end;"
  = PLSQL.
Proof. reflexivity. Qed.

Example assess_drop_tables_word_boundary :
  assessDangerLevel "drop tables_old" DDL = mkAssessment HIGH [warn_ddl].
Proof. vm_compute. reflexivity. Qed.

Example createdObject_captures :
  exec true createdObject "create or replace  function  my_fn return number"
  = Some [(3, "my_fn"); (2, "function"); (1, "or replace  ")].
Proof. vm_compute. reflexivity. Qed.

(* ------------------------------------------------------------------------- *)
(** ** The monad: which computations only add driver calls, and which never
    raise *)

Lemma extends_refl st : extends st st.
Proof. exists []. reflexivity. Qed.

Lemma extends_trans st1 st2 st3 :
  extends st1 st2 -> extends st2 st3 -> extends st1 st3.
Proof.
  intros [l1 H1] [l2 H2]. exists (l2 ++ l1).
  rewrite H2, H1, app_assoc. reflexivity.
Qed.

Lemma mono_ret {A} (a : A) : mono (ret a).
Proof. intro st. apply extends_refl. Qed.

Lemma mono_throw {A} msg : mono (@throw A msg).
Proof. intro st. apply extends_refl. Qed.

Lemma mono_lift {A} (o : Outcome A) : mono (lift o).
Proof. intro st. apply extends_refl. Qed.

Lemma mono_get_state : mono get_state.
Proof. intro st. apply extends_refl. Qed.

Lemma mono_set_connections f : mono (set_connections f).
Proof. intro st. exists []. reflexivity. Qed.

Lemma mono_set_initialized b : mono (set_initialized b).
Proof. intro st. exists []. reflexivity. Qed.

Lemma mono_Date_now w : mono (Date_now w).
Proof. intro st. exists []. reflexivity. Qed.

Lemma mono_invoke {A} c (reply : Trace -> Outcome A) : mono (invoke c reply).
Proof. intro st. exists [c]. reflexivity. Qed.

Lemma mono_bind {A B} (c : M A) (f : A -> M B) :
  mono c -> (forall a, mono (f a)) -> mono (bind c f).
Proof.
  intros Hc Hf st. unfold bind. specialize (Hc st).
  destruct (c st) as [[a | e] st']; simpl in *.
  - eapply extends_trans; [exact Hc | apply Hf].
  - exact Hc.
Qed.

Lemma mono_try_catch {A} (c : M A) (h : string -> M A) :
  mono c -> (forall e, mono (h e)) -> mono (try_catch c h).
Proof.
  intros Hc Hh st. unfold try_catch. specialize (Hc st).
  destruct (c st) as [[a | e] st']; simpl in *.
  - exact Hc.
  - eapply extends_trans; [exact Hc | apply Hh].
Qed.

Lemma mono_if {A} (b : bool) (c1 c2 : M A) :
  mono c1 -> mono c2 -> mono (if b then c1 else c2).
Proof. destruct b; auto. Qed.

Create HintDb mono.
#[local] Hint Resolve mono_ret mono_throw mono_lift mono_get_state
  mono_set_connections mono_set_initialized mono_Date_now mono_invoke
  mono_try_catch mono_if : mono.

Ltac mono_step :=
  match goal with
  | |- mono (bind _ _) => apply mono_bind; [ | intro ]
  | |- mono (match ?x with _ => _ end) => destruct x
  | |- mono (db_initOracleClient _ _) => apply mono_invoke
  | |- mono (db_getConnection _ _ _ _) => apply mono_invoke
  | |- mono (db_ping _ _) => apply mono_invoke
  | |- mono (db_execute _ _ _ _ _) => apply mono_invoke
  | |- mono (db_commit _ _) => apply mono_invoke
  | |- mono (db_rollback _ _) => apply mono_invoke
  | |- mono (db_close _ _) => apply mono_invoke
  | |- mono (try_catch _ _) => apply mono_try_catch; [ | intro ]
  | |- _ => solve [ auto with mono ]
  end.

Ltac mono_solve := repeat mono_step.

Lemma mono_initialize w : mono (initialize w).
Proof. unfold initialize. mono_solve. Qed.

Lemma mono_connect w name : mono (connect w name).
Proof.
  unfold connect. apply mono_bind; [apply mono_initialize | intro].
  mono_solve.
Qed.

Lemma mono_isConnected w name : mono (isConnected w name).
Proof. unfold isConnected. mono_solve. Qed.

Lemma mono_getConnection w name : mono (getConnection w name).
Proof.
  unfold getConnection.
  apply mono_bind; [apply mono_isConnected | intros []].
  - mono_solve.
  - apply mono_connect.
Qed.

#[local] Hint Resolve mono_initialize mono_connect mono_isConnected
  mono_getConnection : mono.

Lemma mono_compilationCheck w h plsql qt t :
  mono (compilationCheck w h plsql qt t).
Proof. unfold compilationCheck. mono_solve. Qed.

#[local] Hint Resolve mono_compilationCheck : mono.

Lemma total_ret {A} (a : A) : total (ret a).
Proof. intro st. exists a. reflexivity. Qed.

Lemma total_try_catch {A} (c : M A) (h : string -> M A) :
  (forall e, total (h e)) -> total (try_catch c h).
Proof.
  intros Hh st. unfold try_catch.
  destruct (c st) as [[a | e] st'].
  - exists a. reflexivity.
  - apply Hh.
Qed.

Lemma total_bind {A B} (c : M A) (f : A -> M B) :
  total c -> (forall a, total (f a)) -> total (bind c f).
Proof.
  intros Hc Hf st. unfold bind. destruct (Hc st) as [a Ha].
  destruct (c st) as [[a' | e] st']; simpl in Ha; [ | discriminate ].
  apply Hf.
Qed.

(* ------------------------------------------------------------------------- *)
(** ** The classifier *)

Lemma prefix_head a s p :
  String.prefix (String a p) s = true -> exists s', s = String a s'.
Proof.
  destruct s as [ | b s']; simpl; [ discriminate | ].
  destruct (ascii_dec a b); [ subst; eauto | discriminate ].
Qed.

(** A text that starts with CREATE starts with none of the four keywords
    tested before it. *)
Lemma create_not_dml s :
  Js.startsWith s "CREATE" = true ->
  Js.startsWith s "SELECT" = false /\ Js.startsWith s "INSERT" = false
  /\ Js.startsWith s "UPDATE" = false /\ Js.startsWith s "DELETE" = false.
Proof.
  unfold Js.startsWith. intro H.
  destruct (prefix_head _ _ _ H) as [s' ->]. repeat split; reflexivity.
Qed.

(** C6: [detectQueryType] returns exactly one of the seven kinds on every
    input; a text that starts with SELECT once trimmed and upper-cased (as
    ["  select 1 from dual"] does) is SELECT; and a text is OTHER exactly
    when none of the rules matches it. *)
Theorem detectQueryType_total_unambiguous (sql : string) :
  let s := Js.toUpperCase (Js.trim sql) in
  (exists! k, In k all_query_types /\ detectQueryType sql = k)
  /\ (Js.startsWith s "SELECT" = true -> detectQueryType sql = SELECT)
  /\ detectQueryType "  select 1 from dual" = SELECT
  /\ (matches_no_rule s = true <-> detectQueryType sql = OTHER).
Proof.
  intro s. repeat split.
  - exists (detectQueryType sql). split.
    + split; [ | reflexivity ].
      destruct (detectQueryType sql); simpl; tauto.
    + intros k [_ Hk]. exact Hk.
  - intro H. unfold detectQueryType. fold s. rewrite H. reflexivity.
  - unfold matches_no_rule, leading_keyword, detectQueryType. fold s.
    destruct (Js.startsWith s "SELECT"), (Js.startsWith s "INSERT"),
      (Js.startsWith s "UPDATE"), (Js.startsWith s "DELETE"),
      (Js.some_startsWith ddl_keywords s),
      (Js.some_startsWith plsql_keywords s),
      (Js.includes s "CREATE OR REPLACE"); simpl; congruence.
  - unfold matches_no_rule, leading_keyword, detectQueryType. fold s.
    destruct (Js.startsWith s "SELECT"), (Js.startsWith s "INSERT"),
      (Js.startsWith s "UPDATE"), (Js.startsWith s "DELETE"),
      (Js.some_startsWith ddl_keywords s),
      (Js.some_startsWith plsql_keywords s),
      (Js.includes s "CREATE OR REPLACE"); simpl; congruence.
Qed.

Lemma detectQueryType_total_unambiguous_witness :
  detectQueryType "  select 1 from dual" = SELECT
  /\ detectQueryType "commit" = OTHER.
Proof.
  split.
  - apply (proj1 (proj2 (detectQueryType_total_unambiguous
                           "  select 1 from dual"))).
    reflexivity.
  - apply (proj1 (proj2 (proj2 (proj2 (detectQueryType_total_unambiguous
                                         "commit"))))).
    reflexivity.
Defined.

(** C1, as the spec words it, fails: a statement that contains the fragment
    is classified by its leading keyword when it has one. *)
Lemma create_or_replace_not_always_plsql :
  Js.includes (Js.toUpperCase "select 'create or replace' from dual")
              "CREATE OR REPLACE" = true
  /\ detectQueryType "select 'create or replace' from dual" = SELECT
  /\ Js.includes (Js.toUpperCase "CREATE OR REPLACE FUNCTION f ...")
                 "CREATE OR REPLACE" = true
  /\ detectQueryType "CREATE OR REPLACE FUNCTION f ..." = DDL
  /\ SELECT <> PLSQL /\ DDL <> PLSQL.
Proof. repeat split; try reflexivity; discriminate. Qed.

(** C1, amended: a statement that contains CREATE OR REPLACE is PLSQL exactly
    when its trimmed, upper-cased text starts with none of SELECT, INSERT,
    UPDATE, DELETE, CREATE, ALTER, DROP, TRUNCATE, GRANT and REVOKE; one that
    starts with CREATE, as ["CREATE OR REPLACE FUNCTION f ..."] does, is
    DDL. *)
Theorem detectQueryType_create_or_replace (sql : string) :
  let s := Js.toUpperCase (Js.trim sql) in
  Js.includes s "CREATE OR REPLACE" = true ->
  (detectQueryType sql = PLSQL <-> leading_keyword s = false)
  /\ (Js.startsWith s "CREATE" = true -> detectQueryType sql = DDL)
  /\ detectQueryType "CREATE OR REPLACE FUNCTION f ..." = DDL.
Proof.
  intros s Hinc. repeat split.
  - unfold leading_keyword, detectQueryType. fold s. rewrite Hinc.
    destruct (Js.startsWith s "SELECT"), (Js.startsWith s "INSERT"),
      (Js.startsWith s "UPDATE"), (Js.startsWith s "DELETE"),
      (Js.some_startsWith ddl_keywords s); simpl; congruence.
  - unfold leading_keyword, detectQueryType. fold s. rewrite Hinc.
    destruct (Js.startsWith s "SELECT"), (Js.startsWith s "INSERT"),
      (Js.startsWith s "UPDATE"), (Js.startsWith s "DELETE"),
      (Js.some_startsWith ddl_keywords s); simpl;
      rewrite ?orb_true_r; congruence.
  - intro Hc. destruct (create_not_dml s Hc) as (H1 & H2 & H3 & H4).
    unfold detectQueryType. fold s. rewrite H1, H2, H3, H4.
    unfold Js.some_startsWith, ddl_keywords. simpl existsb. rewrite Hc.
    reflexivity.
Qed.

Lemma detectQueryType_create_or_replace_witness :
  detectQueryType
    "/* v2 */ create or replace function f return number is begin return 1; end;"
  = PLSQL
  /\ detectQueryType "create or replace view v as select 1 from dual" = DDL.
Proof.
  split.
  - apply (proj1 (detectQueryType_create_or_replace
            "/* v2 */ create or replace function f return number is begin return 1; end;"
            eq_refl)).
    reflexivity.
  - apply (proj1 (proj2 (detectQueryType_create_or_replace
            "create or replace view v as select 1 from dual" eq_refl))).
    reflexivity.
Defined.

(* ------------------------------------------------------------------------- *)
(** ** The danger assessor *)

(** C5, as the spec words it, fails: a DELETE without WHERE that also drops
    an object is critical, because the DROP rule is tried first. *)
Lemma delete_without_where_not_always_high :
  detectQueryType "DELETE FROM t; DROP TABLE audit" = DELETE
  /\ Js.includes (Js.toUpperCase "DELETE FROM t; DROP TABLE audit") "WHERE"
     = false
  /\ assessDangerLevel "DELETE FROM t; DROP TABLE audit" DELETE
     = mkAssessment CRITICAL [warn_drop]
  /\ CRITICAL <> HIGH.
Proof. repeat split; try (vm_compute; reflexivity); discriminate. Qed.

(** C5, amended: the four cases of the spec hold, and a DELETE (resp. UPDATE)
    whose upper-cased text has no WHERE is high, with the warning that all
    rows are affected, when none of the DROP, TRUNCATE TABLE and ALTER SYSTEM
    expressions matches it, and critical when one does. *)
Theorem assessDangerLevel_cases :
  assessDangerLevel "DELETE FROM t" DELETE
  = mkAssessment HIGH [warn_delete_no_where]
  /\ assessDangerLevel "DELETE FROM t WHERE id=1" DELETE
     = mkAssessment MODERATE []
  /\ assessDangerLevel "DROP TABLE t" DDL = mkAssessment CRITICAL [warn_drop]
  /\ assessDangerLevel "SELECT * FROM t" SELECT = mkAssessment SAFE []
  /\ forall sql,
       Js.includes (Js.toUpperCase sql) "WHERE" = false ->
       (critical_pattern sql = false ->
        assessDangerLevel sql DELETE
        = mkAssessment HIGH [warn_delete_no_where]
        /\ assessDangerLevel sql UPDATE
           = mkAssessment HIGH [warn_update_no_where])
       /\ (critical_pattern sql = true ->
           level (assessDangerLevel sql DELETE) = CRITICAL
           /\ level (assessDangerLevel sql UPDATE) = CRITICAL).
Proof.
  repeat split; try (vm_compute; reflexivity);
    revert H0; unfold critical_pattern, assessDangerLevel;
    rewrite H; simpl;
    destruct (test true DANGEROUS_PATTERNS.drop sql),
      (test true DANGEROUS_PATTERNS.truncate sql),
      (test true DANGEROUS_PATTERNS.alterSystem sql); simpl;
    intro; try discriminate; reflexivity.
Qed.

Lemma assessDangerLevel_cases_witness :
  assessDangerLevel "update accounts set balance=0" UPDATE
  = mkAssessment HIGH [warn_update_no_where]
  /\ level (assessDangerLevel "delete from t; truncate table t" DELETE)
     = CRITICAL.
Proof.
  split.
  - apply (proj2 (proj2 (proj2 (proj2 assessDangerLevel_cases)))
             "update accounts set balance=0"); vm_compute; reflexivity.
  - apply (proj2 (proj2 (proj2 (proj2 assessDangerLevel_cases)))
             "delete from t; truncate table t"); vm_compute; reflexivity.
Defined.

(* ------------------------------------------------------------------------- *)
(** ** The entry gates of the executor *)

(** C8: on an input whose kind is not SELECT, [executeQuery] returns the
    failure that points to execute_dml and leaves the state as it was: no
    session is acquired and no driver call is made.  Hence a run that changes
    anything was given a SELECT. *)
Theorem executeQuery_select_only w name sql maxRows params st :
  (detectQueryType sql <> SELECT ->
   executeQuery w name sql maxRows params st
   = (Returned (failed (detectQueryType sql) msg_select_only
                       "Invalid query type" None None), st))
  /\ (snd (executeQuery w name sql maxRows params st) <> st ->
      detectQueryType sql = SELECT).
Proof.
  assert (Hgate : detectQueryType sql <> SELECT ->
                  executeQuery w name sql maxRows params st
                  = (Returned (failed (detectQueryType sql) msg_select_only
                                      "Invalid query type" None None), st)).
  { intro Hk. unfold executeQuery.
    destruct (detectQueryType sql); try congruence; reflexivity. }
  split; [ exact Hgate | ].
  intro Hchanged.
  destruct (detectQueryType sql) eqn:E; try reflexivity;
    exfalso; apply Hchanged; rewrite Hgate; try reflexivity; discriminate.
Qed.

Lemma executeQuery_select_only_witness :
  executeQuery example_world "dev" "DELETE FROM t" None None fresh_state
  = (Returned (failed DELETE msg_select_only "Invalid query type" None None),
     fresh_state).
Proof.
  apply (proj1 (executeQuery_select_only example_world "dev" "DELETE FROM t"
                  None None fresh_state)).
  vm_compute. discriminate.
Defined.

(** C4: on a connection configured read-only, [executeDml], [executePlsql]
    and [commit] each return a failure whose error is "Connection is
    read-only" and leave the state as it was: no session is acquired and the
    driver is not called. *)
Theorem read_only_gate w name cfg sql params commit_flag st :
  getConnectionConfig w name = Returned cfg ->
  cc_mode cfg = READONLY ->
  (exists r, executeDml w name sql params commit_flag st = (Returned r, st)
             /\ qr_success r = false
             /\ qr_error r = Some "Connection is read-only")
  /\ (exists r, executePlsql w name sql params commit_flag st = (Returned r, st)
                /\ qr_success r = false
                /\ qr_error r = Some "Connection is read-only")
  /\ (exists r, commit w name st = (Returned r, st)
                /\ qr_success r = false
                /\ qr_error r = Some "Connection is read-only").
Proof.
  intros Hcfg Hmode.
  unfold executeDml, executePlsql, commit, bind, lift.
  rewrite Hcfg, Hmode.
  repeat split; eexists; repeat split.
Qed.

Lemma read_only_gate_witness :
  exists r,
    executeDml example_world "prod" "INSERT INTO t VALUES (1)" None true
               connected_state
    = (Returned r, connected_state)
    /\ qr_success r = false
    /\ qr_error r = Some "Connection is read-only".
Proof.
  apply (proj1 (read_only_gate example_world "prod" prod_conn
                  "INSERT INTO t VALUES (1)" None true connected_state
                  eq_refl eq_refl)).
Defined.

(* ------------------------------------------------------------------------- *)
(** ** The session cache *)

Lemma get_delete_same {V} k (m : list (string * V)) :
  JsMap.get k (JsMap.delete k m) = None.
Proof.
  induction m as [ | [k' v] m IH]; simpl; [ reflexivity | ].
  destruct (String.eqb k k') eqn:E; simpl; [ exact IH | ].
  rewrite E. exact IH.
Qed.

Lemma delete_absent {V} k (m : list (string * V)) :
  ~ In k (JsMap.keys m) -> JsMap.delete k m = m.
Proof.
  induction m as [ | [k' v] m IH]; simpl; intro Hn; [ reflexivity | ].
  destruct (String.eqb_spec k k') as [-> | Hne].
  - exfalso. apply Hn. left. reflexivity.
  - simpl. f_equal. apply IH. intro Hin. apply Hn. right. exact Hin.
Qed.

Lemma disconnect_present w name st h :
  JsMap.get name (connections st) = Some h ->
  disconnect w name st
  = (Returned true,
     mkState (JsMap.delete name (connections st)) (initialized st)
             (Close h :: trace st) (clock st)).
Proof.
  intro Hget. unfold disconnect, bind, get_state. rewrite Hget.
  unfold try_catch, db_close, invoke.
  destruct (drv_close (driver w) (trace st) h); reflexivity.
Qed.

Lemma disconnect_absent w name st :
  JsMap.get name (connections st) = None ->
  disconnect w name st = (Returned false, st).
Proof.
  intro Hget. unfold disconnect, bind, get_state. rewrite Hget. reflexivity.
Qed.

Lemma disconnectAll_loop_releases w conns :
  forall st count,
    connections st = conns ->
    NoDup (JsMap.keys conns) ->
    disconnectAll_loop w (JsMap.keys conns) count st
    = (Returned (count + List.length conns),
       mkState [] (initialized st)
               (rev (map Close (map snd conns)) ++ trace st) (clock st)).
Proof.
  induction conns as [ | [k h] rest IH]; intros st count Hc Hnd.
  - simpl. rewrite Nat.add_0_r. destruct st; simpl in *; subst. reflexivity.
  - simpl JsMap.keys. simpl disconnectAll_loop. unfold bind.
    rewrite (disconnect_present w k st h)
      by (rewrite Hc; simpl; rewrite String.eqb_refl; reflexivity).
    inversion Hnd as [ | ? ? Hnotin Hnd']; subst.
    rewrite IH; simpl.
    + rewrite <- app_assoc, Nat.add_succ_r. reflexivity.
    + rewrite Hc. simpl. rewrite String.eqb_refl. simpl.
      apply delete_absent. exact Hnotin.
    + exact Hnd'.
Qed.

(** C9: [disconnect] returns true when a session is cached under the name,
    after a close call whose failure is swallowed and with the entry evicted,
    and false, without touching anything, when none is; it never raises.
    [disconnectAll] closes every cached session once, in insertion order,
    whatever the close calls answer, returns their number and leaves the cache
    empty; on an empty cache it returns 0 and changes nothing. *)
Theorem disconnect_releases w st :
  (forall name h,
     JsMap.get name (connections st) = Some h ->
     exists st',
       disconnect w name st = (Returned true, st')
       /\ JsMap.get name (connections st') = None
       /\ trace st' = Close h :: trace st)
  /\ (forall name,
        JsMap.get name (connections st) = None ->
        disconnect w name st = (Returned false, st))
  /\ (NoDup (JsMap.keys (connections st)) ->
      exists st',
        disconnectAll w st = (Returned (List.length (connections st)), st')
        /\ connections st' = []
        /\ trace st'
           = rev (map Close (map snd (connections st))) ++ trace st)
  /\ (connections st = [] -> disconnectAll w st = (Returned 0, st)).
Proof.
  repeat split.
  - intros name h Hget. eexists. split; [ | split ].
    + apply disconnect_present. exact Hget.
    + simpl. apply get_delete_same.
    + reflexivity.
  - intros name Hget. apply disconnect_absent. exact Hget.
  - intro Hnd. eexists. split; [ | split ].
    + unfold disconnectAll, bind, get_state.
      rewrite (disconnectAll_loop_releases w (connections st) st 0 eq_refl Hnd).
      reflexivity.
    + reflexivity.
    + reflexivity.
  - intro Hempty. unfold disconnectAll, bind, get_state. rewrite Hempty.
    reflexivity.
Qed.

Lemma disconnect_releases_witness :
  (exists st',
     disconnect example_world "dev" connected_state = (Returned true, st')
     /\ JsMap.get "dev" (connections st') = None
     /\ trace st' = Close 3 :: trace connected_state)
  /\ disconnect example_world "qa" connected_state
     = (Returned false, connected_state)
  /\ (exists st',
        disconnectAll example_world connected_state = (Returned 2, st')
        /\ connections st' = []
        /\ trace st' = [Close 5; Close 3] ++ trace connected_state)
  /\ disconnectAll example_world fresh_state = (Returned 0, fresh_state).
Proof.
  split; [ | split; [ | split ] ].
  - apply (proj1 (disconnect_releases example_world connected_state)).
    reflexivity.
  - apply (proj1 (proj2 (disconnect_releases example_world connected_state))).
    reflexivity.
  - apply (proj1 (proj2 (proj2 (disconnect_releases example_world
                                  connected_state)))).
    repeat constructor; simpl; intuition discriminate.
  - apply (proj2 (proj2 (proj2 (disconnect_releases example_world
                                  fresh_state)))).
    reflexivity.
Defined.

(* ------------------------------------------------------------------------- *)
(** ** Running a statement: what reaches the driver, what comes back *)

Lemma bind_returned {A B} (c : M A) (f : A -> M B) st a st' :
  c st = (Returned a, st') -> bind c f st = f a st'.
Proof. intro H. unfold bind. rewrite H. reflexivity. Qed.

Lemma bind_thrown {A B} (c : M A) (f : A -> M B) st e st' :
  c st = (Thrown e, st') -> bind c f st = (Thrown e, st').
Proof. intro H. unfold bind. rewrite H. reflexivity. Qed.

Lemma post_ret {A} (P : A -> Prop) a : P a -> post P (ret a).
Proof. intros H st a' st' E. inversion E; subst. exact H. Qed.

Lemma post_bind {A B} (P : B -> Prop) (c : M A) (f : A -> M B) :
  (forall a, post P (f a)) -> post P (bind c f).
Proof.
  intros Hf st b st' E. unfold bind in E.
  destruct (c st) as [[a | e] st1]; [ | discriminate ].
  eapply Hf. exact E.
Qed.

Lemma post_try_catch {A} (P : A -> Prop) (c : M A) (h : string -> M A) :
  post P c -> (forall e, post P (h e)) -> post P (try_catch c h).
Proof.
  intros Hc Hh st a st' E. unfold try_catch in E.
  destruct (c st) as [[a1 | e] st1] eqn:Ec.
  - inversion E; subst. eapply Hc. exact Ec.
  - eapply Hh. exact E.
Qed.

(** The shape shared by the three [try] blocks: acquire the session, read
    the clock, issue the statement.  Once the session is acquired the
    statement is the next call the driver receives, whatever follows. *)
Lemma statement_issued {A} w name sql binds opts
    (k : Handle -> Z -> Result -> M A) (handler : string -> M A) st h st1 :
  (forall c t r, mono (k c t r)) ->
  (forall e, mono (handler e)) ->
  getConnection w name st = (Returned h, st1) ->
  exists later,
    trace (snd (try_catch
                  (bind (getConnection w name) (fun connection =>
                   bind (Date_now w) (fun startTime =>
                   bind (db_execute w connection sql binds opts)
                        (fun result => k connection startTime result))))
                  handler st))
    = later ++ Execute h sql binds opts :: trace st1.
Proof.
  intros Hk Hh Hget.
  unfold try_catch at 1. rewrite (bind_returned _ _ _ _ _ Hget).
  unfold Date_now, db_execute, invoke, bind at 1 2. simpl.
  destruct (drv_execute (driver w) (trace st1) h sql binds opts) as [r | e].
  - match goal with
    | |- context [k h ?t r ?s] =>
        destruct (mono_try_catch (k h t r) handler (Hk h t r) Hh s)
          as [later Hl];
        exists later; unfold try_catch in Hl; exact Hl
    end.
  - destruct (Hh e (mkState (connections st1) (initialized st1)
                            (Execute h sql binds opts :: trace st1)
                            (S (clock st1)))) as [later Hl].
    exists later. exact Hl.
Qed.

Lemma mono_executeDml_handler w name qt ws error :
  mono (bind (try_catch (bind (getConnection w name)
                              (fun connection => db_rollback w connection))
                        (fun _ => ret tt))
             (fun _ => ret (failed qt ("Statement failed: " ++ error)%string
                                   error None (if_nonempty ws)))).
Proof. mono_solve. Qed.

Lemma executeDml_try_total w name sql params commit_flag qt ws :
  total (executeDml_try w name sql params commit_flag qt ws).
Proof.
  unfold executeDml_try. apply total_try_catch. intro e.
  apply total_bind; [ | intro; apply total_ret ].
  apply total_try_catch. intro. apply total_ret.
Qed.

Lemma executeDml_try_warnings w name sql params commit_flag qt ws :
  post (fun r => qr_warnings r = if_nonempty ws)
       (executeDml_try w name sql params commit_flag qt ws).
Proof.
  unfold executeDml_try.
  apply post_try_catch; [ | intro e ];
    repeat (apply post_bind; intro); apply post_ret; reflexivity.
Qed.

Lemma executeDml_try_issues w name sql params commit_flag qt ws st h st1 :
  getConnection w name st = (Returned h, st1) ->
  exists later,
    trace (snd (executeDml_try w name sql params commit_flag qt ws st))
    = later ++ Execute h sql (Some (binds_or_empty params)) no_autocommit
        :: trace st1.
Proof.
  intro Hget. unfold executeDml_try, no_autocommit.
  apply statement_issued; [ | | exact Hget ].
  - intros c t r. destruct commit_flag; mono_solve.
  - intro e. mono_solve.
Qed.

Lemma executeDml_try_no_session w name sql params commit_flag qt ws st e st1 :
  getConnection w name st = (Thrown e, st1) ->
  exists st2,
    executeDml_try w name sql params commit_flag qt ws st
    = (Returned (failed qt ("Statement failed: " ++ e)%string e None
                        (if_nonempty ws)), st2).
Proof.
  intro Hget. unfold executeDml_try. unfold try_catch at 1.
  rewrite (bind_thrown _ _ _ _ _ Hget). unfold bind at 1.
  match goal with
  | |- context [try_catch ?c ?h st1] =>
      destruct (total_try_catch c h (fun _ => total_ret tt) st1) as [u Hu];
      destruct (try_catch c h st1) as [o st2]
  end.
  simpl in Hu. subst o. exists st2. reflexivity.
Qed.

(** C3: on a read-write connection a statement whose severity is not critical
    is not blocked.  [executeDml] returns an outcome, successful or not, that
    carries the assessor's warnings (none is [undefined]); on the session it
    acquires the statement is the next call the driver receives, with
    auto-commit off; and the one way for the statement not to reach the
    driver is that no session could be acquired, which is reported as that
    failure.  Only the critical severity is answered with the block, and then
    nothing is touched. *)
Theorem executeDml_below_critical w name cfg sql params commit_flag st :
  getConnectionConfig w name = Returned cfg ->
  cc_mode cfg = READWRITE ->
  let a := assessDangerLevel sql (detectQueryType sql) in
  (level a <> CRITICAL ->
   (exists r st',
      executeDml w name sql params commit_flag st = (Returned r, st')
      /\ qr_warnings r = if_nonempty (warnings a))
   /\ (forall h st1,
         getConnection w name st = (Returned h, st1) ->
         exists later,
           trace (snd (executeDml w name sql params commit_flag st))
           = later ++ Execute h sql (Some (binds_or_empty params))
                        no_autocommit :: trace st1)
   /\ (forall e st1,
         getConnection w name st = (Thrown e, st1) ->
         exists st',
           executeDml w name sql params commit_flag st
           = (Returned (failed (detectQueryType sql)
                               ("Statement failed: " ++ e)%string e None
                               (if_nonempty (warnings a))), st')))
  /\ (level a = CRITICAL ->
      executeDml w name sql params commit_flag st
      = (Returned (blocked (detectQueryType sql) (warnings a)), st)).
Proof.
  intros Hcfg Hmode a.
  assert (Hrun : level a <> CRITICAL ->
                 executeDml w name sql params commit_flag st
                 = executeDml_try w name sql params commit_flag
                     (detectQueryType sql) (warnings a) st).
  { intro Hl. unfold executeDml, bind, lift. rewrite Hcfg, Hmode. fold a.
    destruct (level a); try congruence; reflexivity. }
  split.
  - intro Hl. rewrite (Hrun Hl). split; [ | split ].
    + destruct (executeDml_try_total w name sql params commit_flag
                  (detectQueryType sql) (warnings a) st) as [r Hr].
      destruct (executeDml_try w name sql params commit_flag
                  (detectQueryType sql) (warnings a) st) as [o st'] eqn:E.
      simpl in Hr. subst o. exists r, st'. split; [ reflexivity | ].
      eapply executeDml_try_warnings. exact E.
    + intros h st1 Hget. apply executeDml_try_issues. exact Hget.
    + intros e st1 Hget. eapply executeDml_try_no_session. exact Hget.
  - intro Hl. unfold executeDml, bind, lift. rewrite Hcfg, Hmode. fold a.
    rewrite Hl. reflexivity.
Qed.

Lemma executePlsql_try_issues w name plsql params commit_flag qt ws st h st1 :
  getConnection w name st = (Returned h, st1) ->
  exists later,
    trace (snd (executePlsql_try w name plsql params commit_flag qt ws st))
    = later ++ Execute h plsql (Some (binds_or_empty params)) no_autocommit
        :: trace st1.
Proof.
  intro Hget. unfold executePlsql_try, no_autocommit.
  apply statement_issued; [ | | exact Hget ].
  - intros c t r. destruct commit_flag; mono_solve.
  - intro e. mono_solve.
Qed.

(** C2, as the spec words it, fails on three counts.  A critical statement
    that creates a routine without OR REPLACE is executed; on a read-only
    connection a critical CREATE OR REPLACE is not executed; and there the
    denial of a critical statement is the read-only one, without the
    assessor's warnings. *)
Lemma critical_gate_not_as_specified :
  let plain := "CREATE PROCEDURE p AS BEGIN EXECUTE IMMEDIATE 'DROP TABLE t'; END;" in
  let replace := "CREATE OR REPLACE PROCEDURE p AS BEGIN EXECUTE IMMEDIATE 'DROP TABLE t'; END;" in
  (level (assessDangerLevel plain (detectQueryType plain)) = CRITICAL
   /\ test true spec_createOrReplace plain = false
   /\ cc_mode dev_conn = READWRITE
   /\ In (Execute 0 plain (Some []) no_autocommit)
         (trace (snd (executePlsql example_world "dev" plain None true
                                   fresh_state))))
  /\ (level (assessDangerLevel replace (detectQueryType replace)) = CRITICAL
      /\ test true spec_createOrReplace replace = true
      /\ cc_mode prod_conn = READONLY
      /\ trace (snd (executePlsql example_world "prod" replace None true
                                  fresh_state)) = [])
  /\ (level (assessDangerLevel "DROP TABLE t" (detectQueryType "DROP TABLE t"))
      = CRITICAL
      /\ test true spec_createOrReplace "DROP TABLE t" = false
      /\ warnings (assessDangerLevel "DROP TABLE t"
                                     (detectQueryType "DROP TABLE t"))
         = [warn_drop]
      /\ exists r,
           executePlsql example_world "prod" "DROP TABLE t" None true
                        fresh_state = (Returned r, fresh_state)
           /\ qr_warnings r = None).
Proof.
  repeat split; try (vm_compute; reflexivity).
  - vm_compute. tauto.
  - eexists. split; vm_compute; reflexivity.
Qed.

(** C2, amended.  On a read-write connection [executePlsql] returns the
    block, with the assessor's warnings and nothing touched, for a statement
    of critical severity, unless the text matches CREATE, with or without OR
    REPLACE, of a PROCEDURE, FUNCTION, PACKAGE, TRIGGER, TYPE or VIEW, in
    which case it runs the statement, the next call the driver receives on
    the session it acquires.  On a read-only connection every call of
    [executePlsql], whatever the severity of the text, returns the read-only
    failure, without warnings and with nothing touched.  [executeDml] denies
    every critical statement on a read-write connection with the block, and
    every statement on a read-only one with the read-only failure, nothing
    touched in either case. *)
Theorem critical_gate w name cfg plsql params commit_flag st :
  getConnectionConfig w name = Returned cfg ->
  let qt := detectQueryType plsql in
  let a := assessDangerLevel plsql qt in
  (cc_mode cfg = READWRITE ->
   level a = CRITICAL ->
   test true allowedCreate plsql = false ->
   executePlsql w name plsql params commit_flag st
   = (Returned (blocked qt (warnings a)), st)
   /\ qr_success (blocked qt (warnings a)) = false
   /\ qr_warnings (blocked qt (warnings a)) = Some (warnings a))
  /\ (cc_mode cfg = READWRITE ->
      level a = CRITICAL ->
      test true allowedCreate plsql = true ->
      executePlsql w name plsql params commit_flag st
      = executePlsql_try w name plsql params commit_flag qt (warnings a) st
      /\ forall h st1,
           getConnection w name st = (Returned h, st1) ->
           exists later,
             trace (snd (executePlsql w name plsql params commit_flag st))
             = later ++ Execute h plsql (Some (binds_or_empty params))
                          no_autocommit :: trace st1)
  /\ (cc_mode cfg = READONLY ->
      exists r,
        executePlsql w name plsql params commit_flag st = (Returned r, st)
        /\ qr_success r = false
        /\ qr_error r = Some "Connection is read-only"
        /\ qr_warnings r = None)
  /\ (cc_mode cfg = READWRITE ->
      level a = CRITICAL ->
      executeDml w name plsql params commit_flag st
      = (Returned (blocked qt (warnings a)), st))
  /\ (cc_mode cfg = READONLY ->
      exists r,
        executeDml w name plsql params commit_flag st = (Returned r, st)
        /\ qr_success r = false
        /\ qr_error r = Some "Connection is read-only"
        /\ qr_warnings r = None).
Proof.
  intros Hcfg qt a.
  assert (Hallowed : cc_mode cfg = READWRITE ->
                     level a = CRITICAL ->
                     test true allowedCreate plsql = true ->
                     executePlsql w name plsql params commit_flag st
                     = executePlsql_try w name plsql params commit_flag qt
                         (warnings a) st).
  { intros Hmode Hl Hm. unfold executePlsql, bind, lift. rewrite Hcfg, Hmode.
    fold qt. fold a. rewrite Hl, Hm. reflexivity. }
  split; [ | split; [ | split; [ | split ] ] ].
  - intros Hmode Hl Hm. split; [ | split; reflexivity ].
    unfold executePlsql, bind, lift. rewrite Hcfg, Hmode.
    fold qt. fold a. rewrite Hl, Hm. reflexivity.
  - intros Hmode Hl Hm. split; [ exact (Hallowed Hmode Hl Hm) | ].
    intros h st1 Hget. rewrite (Hallowed Hmode Hl Hm).
    apply executePlsql_try_issues. exact Hget.
  - intro Hmode. unfold executePlsql, bind, lift. rewrite Hcfg, Hmode.
    eexists. repeat split.
  - intros Hmode Hl. unfold executeDml, bind, lift. rewrite Hcfg, Hmode.
    fold qt. fold a. rewrite Hl. reflexivity.
  - intro Hmode. unfold executeDml, bind, lift. rewrite Hcfg, Hmode.
    eexists. repeat split.
Qed.

Lemma critical_gate_witness :
  executePlsql example_world "dev" "DROP TABLE t" None true fresh_state
  = (Returned (blocked DDL [warn_drop]), fresh_state)
  /\ executeDml example_world "dev" "DROP TABLE t" None true fresh_state
     = (Returned (blocked DDL [warn_drop]), fresh_state)
  /\ (exists later,
        trace (snd (executePlsql example_world "dev"
                      "create or replace view v as select 1 from dual; DROP TABLE t"
                      None true fresh_state))
        = later
          ++ Execute 0
               "create or replace view v as select 1 from dual; DROP TABLE t"
               (Some []) no_autocommit
          :: [GetConnection "scott" "tiger" "localhost:1521/XEPDB1"])
  /\ (exists r,
        executePlsql example_world "prod" "BEGIN NULL; END;" None true
                     fresh_state = (Returned r, fresh_state)
        /\ qr_success r = false
        /\ qr_error r = Some "Connection is read-only"
        /\ qr_warnings r = None)
  /\ exists r,
       executeDml example_world "prod" "DROP TABLE t" None true fresh_state
       = (Returned r, fresh_state)
       /\ qr_success r = false
       /\ qr_error r = Some "Connection is read-only"
       /\ qr_warnings r = None.
Proof.
  split; [ | split; [ | split; [ | split ] ] ].
  - apply (proj1 (critical_gate example_world "dev" dev_conn "DROP TABLE t"
                    None true fresh_state eq_refl));
      vm_compute; reflexivity.
  - apply (proj1 (proj2 (proj2 (proj2
             (critical_gate example_world "dev" dev_conn "DROP TABLE t"
                None true fresh_state eq_refl)))));
      vm_compute; reflexivity.
  - refine (proj2 (proj1 (proj2
             (critical_gate example_world "dev" dev_conn
                "create or replace view v as select 1 from dual; DROP TABLE t"
                None true fresh_state eq_refl)) eq_refl _ _) 0
             (mkState [("dev", 0)] true
                [GetConnection "scott" "tiger" "localhost:1521/XEPDB1"] 0) _);
      vm_compute; reflexivity.
  - apply (proj1 (proj2 (proj2
             (critical_gate example_world "prod" prod_conn "BEGIN NULL; END;"
                None true fresh_state eq_refl)))).
    reflexivity.
  - apply (proj2 (proj2 (proj2 (proj2
             (critical_gate example_world "prod" prod_conn "DROP TABLE t"
                None true fresh_state eq_refl))))).
    reflexivity.
Defined.

Lemma executeDml_below_critical_witness :
  (exists r st',
     executeDml example_world "dev" "UPDATE accounts SET balance=0" None true
                fresh_state = (Returned r, st')
     /\ qr_warnings r = Some [warn_update_no_where])
  /\ exists later,
       trace (snd (executeDml example_world "dev"
                     "UPDATE accounts SET balance=0" None true fresh_state))
       = later
         ++ Execute 0 "UPDATE accounts SET balance=0" (Some []) no_autocommit
         :: [GetConnection "scott" "tiger" "localhost:1521/XEPDB1"].
Proof.
  assert (Hhigh : level (assessDangerLevel "UPDATE accounts SET balance=0"
                           (detectQueryType "UPDATE accounts SET balance=0"))
                  <> CRITICAL) by (vm_compute; discriminate).
  split.
  - apply (proj1 (proj1 (executeDml_below_critical example_world "dev"
                           dev_conn "UPDATE accounts SET balance=0" None true
                           fresh_state eq_refl eq_refl) Hhigh)).
  - apply (proj1 (proj2 (proj1 (executeDml_below_critical example_world
                                  "dev" dev_conn
                                  "UPDATE accounts SET balance=0" None true
                                  fresh_state eq_refl eq_refl) Hhigh)) 0
             (mkState [("dev", 0)] true
                [GetConnection "scott" "tiger" "localhost:1521/XEPDB1"] 0)).
    vm_compute. reflexivity.
Defined.

(* ------------------------------------------------------------------------- *)
(** ** The row cap of [executeQuery] *)


(** Below 2^53 in size a sum of two numbers is their exact sum. *)
Lemma add_exact (a b : Z) :
  (Z.abs (a + b) <= 2 ^ 53)%Z -> Js.add a b = (a + b)%Z.
Proof.
  intro H. unfold Js.add, Js.round_double.
  destruct (Z.leb_spec (Z.abs (a + b)) (2 ^ 53)); [ reflexivity | lia ].
Qed.





(* ------------------------------------------------------------------------- *)
(** ** A row cap of 0, or none *)




(* ========================================================================= *)
(** * Further properties of the code *)

(* ------------------------------------------------------------------------- *)
(** ** Case and surrounding blanks *)

Lemma upper_char_idem c : Js.upper_char (Js.upper_char c) = Js.upper_char c.
Proof. destruct c as [[] [] [] [] [] [] [] []]; reflexivity. Qed.

Lemma is_space_upper c : Js.is_space (Js.upper_char c) = Js.is_space c.
Proof. destruct c as [[] [] [] [] [] [] [] []]; reflexivity. Qed.

Lemma is_word_upper c : Js.is_word (Js.upper_char c) = Js.is_word c.
Proof. destruct c as [[] [] [] [] [] [] [] []]; reflexivity. Qed.

Lemma toUpperCase_idem s :
  Js.toUpperCase (Js.toUpperCase s) = Js.toUpperCase s.
Proof.
  induction s as [ | c s IH]; simpl; [ reflexivity | ].
  rewrite upper_char_idem, IH. reflexivity.
Qed.

Lemma toUpperCase_empty s : Js.toUpperCase s = EmptyString -> s = EmptyString.
Proof. destruct s; simpl; [ reflexivity | discriminate ]. Qed.

Lemma trimStart_upper s :
  Js.trimStart (Js.toUpperCase s) = Js.toUpperCase (Js.trimStart s).
Proof.
  induction s as [ | c s IH]; simpl; [ reflexivity | ].
  rewrite is_space_upper. destruct (Js.is_space c); [ exact IH | reflexivity ].
Qed.

Lemma trimEnd_upper s :
  Js.trimEnd (Js.toUpperCase s) = Js.toUpperCase (Js.trimEnd s).
Proof.
  induction s as [ | c s IH]; simpl; [ reflexivity | ].
  rewrite IH, is_space_upper.
  destruct (Js.trimEnd s) as [ | d t]; simpl.
  - destruct (Js.is_space c); reflexivity.
  - reflexivity.
Qed.

Lemma trim_upper s : Js.trim (Js.toUpperCase s) = Js.toUpperCase (Js.trim s).
Proof. unfold Js.trim. rewrite trimStart_upper, trimEnd_upper. reflexivity. Qed.

Lemma trimStart_blank_prefix p s :
  all_space p = true -> Js.trimStart (p ++ s)%string = Js.trimStart s.
Proof.
  induction p as [ | c p IH]; simpl; intro H; [ reflexivity | ].
  apply andb_true_iff in H. destruct H as [Hc Hp]. rewrite Hc. auto.
Qed.

Lemma trimStart_blank q : all_space q = true -> Js.trimStart q = EmptyString.
Proof.
  induction q as [ | c q IH]; simpl; intro H; [ reflexivity | ].
  apply andb_true_iff in H. destruct H as [Hc Hq]. rewrite Hc. auto.
Qed.

Lemma trimEnd_blank q : all_space q = true -> Js.trimEnd q = EmptyString.
Proof.
  induction q as [ | c q IH]; simpl; intro H; [ reflexivity | ].
  apply andb_true_iff in H. destruct H as [Hc Hq]. rewrite (IH Hq), Hc.
  reflexivity.
Qed.

Lemma trimEnd_blank_suffix s q :
  all_space q = true -> Js.trimEnd (s ++ q)%string = Js.trimEnd s.
Proof.
  intro Hq. induction s as [ | c s IH]; simpl.
  - apply trimEnd_blank. exact Hq.
  - rewrite IH. reflexivity.
Qed.

Lemma trim_blank_suffix s q :
  all_space q = true -> Js.trim (s ++ q)%string = Js.trim s.
Proof.
  intro Hq. unfold Js.trim. induction s as [ | c s IH]; simpl.
  - rewrite (trimStart_blank q Hq). reflexivity.
  - destruct (Js.is_space c); [ exact IH | ].
    apply (trimEnd_blank_suffix (String c s) q Hq).
Qed.

Lemma trim_surrounding_blanks p s q :
  all_space p = true -> all_space q = true ->
  Js.trim (p ++ s ++ q)%string = Js.trim s.
Proof.
  intros Hp Hq. unfold Js.trim at 1. rewrite trimStart_blank_prefix by exact Hp.
  apply (trim_blank_suffix s q Hq).
Qed.

Lemma toUpperCase_app s t :
  Js.toUpperCase (s ++ t)%string
  = (Js.toUpperCase s ++ Js.toUpperCase t)%string.
Proof. induction s as [ | c s IH]; simpl; [ | rewrite IH ]; reflexivity. Qed.

(** X1: the classification depends neither on the case of the letters nor on
    blanks around the statement. *)
Theorem detectQueryType_case_and_blanks sql :
  detectQueryType (Js.toUpperCase sql) = detectQueryType sql
  /\ forall p q,
       all_space p = true -> all_space q = true ->
       detectQueryType (p ++ sql ++ q)%string = detectQueryType sql.
Proof.
  split.
  - unfold detectQueryType. rewrite trim_upper, toUpperCase_idem. reflexivity.
  - intros p q Hp Hq. unfold detectQueryType.
    rewrite (trim_surrounding_blanks p sql q Hp Hq). reflexivity.
Qed.

Lemma detectQueryType_case_and_blanks_witness :
  detectQueryType (newline ++ "  Insert into t values (1)" ++ " " ++ newline)%string
  = detectQueryType "Insert into t values (1)".
Proof.
  apply (proj2 (detectQueryType_case_and_blanks "Insert into t values (1)")
               (newline ++ "  ")%string (" " ++ newline)%string);
    reflexivity.
Defined.

(* ------------------------------------------------------------------------- *)
(** ** The matcher under the [i] flag *)

Lemma atom_ok_upper a c :
  atom_ok true a (Js.upper_char c) = atom_ok true a c.
Proof.
  destruct a; simpl.
  - rewrite upper_char_idem. reflexivity.
  - apply is_space_upper.
  - apply is_word_upper.
Qed.

Lemma word_before_upper p : word_before (upper_prev p) = word_before p.
Proof. destruct p; simpl; [ apply is_word_upper | reflexivity ]. Qed.

Lemma word_after_upper s : word_after (Js.toUpperCase s) = word_after s.
Proof. destruct s; simpl; [ reflexivity | apply is_word_upper ]. Qed.

Lemma plusA_upper a k k' :
  cont_upper k k' ->
  forall s cs cs',
    is_some (plusA (atom_ok true a) s cs k)
    = is_some (plusA (atom_ok true a) (Js.toUpperCase s) cs' k').
Proof.
  intros Hk s. induction s as [ | c s IH]; intros cs cs'; simpl.
  - reflexivity.
  - rewrite atom_ok_upper. destruct (atom_ok true a c); [ | reflexivity ].
    specialize (IH cs cs'). specialize (Hk (Some c) s cs cs'). simpl in Hk.
    destruct (plusA (atom_ok true a) s cs k),
      (plusA (atom_ok true a) (Js.toUpperCase s) cs' k');
      simpl in *; try discriminate; try reflexivity.
    exact Hk.
Qed.

Lemma rmatch_upper r :
  forall k k',
    cont_upper k k' ->
    forall p s cs cs',
      is_some (rmatch true r p s cs k)
      = is_some (rmatch true r (upper_prev p) (Js.toUpperCase s) cs' k').
Proof.
  induction r as [ | a | a | | r1 IH1 r2 IH2 | r1 IH1 r2 IH2 | r1 IH1
                 | n r1 IH1 ];
    intros k k' Hk p s cs cs'; simpl.
  - apply Hk.
  - destruct s as [ | c s]; simpl; [ reflexivity | ].
    rewrite atom_ok_upper. destruct (atom_ok true a c); [ | reflexivity ].
    apply (Hk (Some c) s cs cs').
  - apply plusA_upper. exact Hk.
  - rewrite word_before_upper, word_after_upper.
    destruct (xorb (word_before p) (word_after s)); [ apply Hk | reflexivity ].
  - apply IH1. intros p1 s1 c1 c1'. apply IH2. exact Hk.
  - specialize (IH1 k k' Hk p s cs cs'). specialize (IH2 k k' Hk p s cs cs').
    destruct (rmatch true r1 p s cs k),
      (rmatch true r1 (upper_prev p) (Js.toUpperCase s) cs' k');
      simpl in *; try discriminate; try reflexivity.
    exact IH2.
  - specialize (IH1 k k' Hk p s cs cs'). specialize (Hk p s cs cs').
    destruct (rmatch true r1 p s cs k),
      (rmatch true r1 (upper_prev p) (Js.toUpperCase s) cs' k');
      simpl in *; try discriminate; try reflexivity.
    exact Hk.
  - apply IH1. intros p1 s1 c1 c1'. apply Hk.
Qed.

Lemma exec_from_upper r s :
  forall p,
    is_some (exec_from true r p s)
    = is_some (exec_from true r (upper_prev p) (Js.toUpperCase s)).
Proof.
  induction s as [ | c s IH]; intro p; simpl.
  - pose proof (rmatch_upper r (fun _ _ cs => Some cs) (fun _ _ cs => Some cs)
                  (fun _ _ _ _ => eq_refl) p EmptyString [] []) as H.
    simpl in H.
    destruct (rmatch true r p EmptyString [] (fun _ _ cs => Some cs)),
      (rmatch true r (upper_prev p) EmptyString [] (fun _ _ cs => Some cs));
      simpl in *; try discriminate; reflexivity.
  - pose proof (rmatch_upper r (fun _ _ cs => Some cs) (fun _ _ cs => Some cs)
                  (fun _ _ _ _ => eq_refl) p (String c s) [] []) as H.
    simpl in H. specialize (IH (Some c)). simpl in IH.
    destruct (rmatch true r p (String c s) [] (fun _ _ cs => Some cs)),
      (rmatch true r (upper_prev p) (String (Js.upper_char c) (Js.toUpperCase s))
         [] (fun _ _ cs => Some cs));
      simpl in *; try discriminate; try reflexivity.
    exact IH.
Qed.

(** Under the [i] flag an expression matches a text exactly when it matches
    the text in upper case. *)
Lemma test_upper r s : test true r (Js.toUpperCase s) = test true r s.
Proof.
  unfold test, exec. pose proof (exec_from_upper r s None) as H. simpl in H.
  unfold is_some in H. symmetry. exact H.
Qed.

(** X2: for a statement made of ASCII characters, on which [toUpperCase] and
    the [i] flag of the expressions agree, the danger assessment does not
    depend on the case of the letters: the upper-cased statement gets the
    same level and the same warnings. *)
Theorem assessDangerLevel_case_insensitive sql queryType :
  all_ascii sql = true ->
  assessDangerLevel (Js.toUpperCase sql) queryType
  = assessDangerLevel sql queryType.
Proof.
  intros _. unfold assessDangerLevel. rewrite !test_upper, toUpperCase_idem.
  reflexivity.
Qed.

Lemma assessDangerLevel_case_insensitive_witness :
  assessDangerLevel "DROP TABLE T" DDL = assessDangerLevel "drop table t" DDL.
Proof.
  exact (assessDangerLevel_case_insensitive "drop table t" DDL eq_refl).
Defined.

(* ------------------------------------------------------------------------- *)
(** ** The levels of the assessor *)

(** X3: a statement is rated critical exactly when its kind is not SELECT and
    one of the DROP, TRUNCATE TABLE and ALTER SYSTEM expressions matches it.
    In particular a text of kind SELECT is never critical, whatever it
    contains. *)
Theorem assessDangerLevel_critical_iff sql queryType :
  level (assessDangerLevel sql queryType) = CRITICAL
  <-> queryType <> SELECT /\ critical_pattern sql = true.
Proof.
  unfold assessDangerLevel, critical_pattern.
  destruct queryType; simpl;
    destruct (test true DANGEROUS_PATTERNS.drop sql),
      (test true DANGEROUS_PATTERNS.truncate sql),
      (test true DANGEROUS_PATTERNS.alterSystem sql),
      (Js.includes (Js.toUpperCase sql) "WHERE"); simpl;
    split; try (intros [H1 H2]); try intro; try split;
    try congruence; try discriminate; try reflexivity.
Qed.

(** X4: an assessment carries at most one warning, and it carries one exactly
    when its level is high or critical: safe and moderate statements come
    without a warning. *)
Theorem assessDangerLevel_warnings sql queryType :
  let a := assessDangerLevel sql queryType in
  (List.length (warnings a) <= 1)%nat
  /\ (warnings a = [] <-> level a = SAFE \/ level a = MODERATE).
Proof.
  unfold assessDangerLevel.
  destruct queryType; simpl;
    destruct (test true DANGEROUS_PATTERNS.drop sql),
      (test true DANGEROUS_PATTERNS.truncate sql),
      (test true DANGEROUS_PATTERNS.alterSystem sql),
      (Js.includes (Js.toUpperCase sql) "WHERE"); simpl;
    (split; [ lia | split; [ intro; try discriminate; tauto
                           | intros [ | ]; try discriminate; reflexivity ] ]).
Qed.

(** X5: what is run inside a procedural or unclassified text is not looked
    at: for the kinds PLSQL and OTHER the level is critical when one of the
    three expressions matches and safe otherwise, never moderate or high,
    even without a WHERE. *)
Theorem assessDangerLevel_plsql_other sql queryType :
  queryType = PLSQL \/ queryType = OTHER ->
  level (assessDangerLevel sql queryType)
  = (if critical_pattern sql then CRITICAL else SAFE)
  /\ (critical_pattern sql = false ->
      warnings (assessDangerLevel sql queryType) = []).
Proof.
  intros [-> | ->]; unfold assessDangerLevel, critical_pattern; simpl;
    destruct (test true DANGEROUS_PATTERNS.drop sql),
      (test true DANGEROUS_PATTERNS.truncate sql),
      (test true DANGEROUS_PATTERNS.alterSystem sql); simpl;
    (split; [ reflexivity | intro; try discriminate; reflexivity ]).
Qed.

Lemma assessDangerLevel_plsql_other_witness :
  level (assessDangerLevel "BEGIN DELETE FROM accounts; END;"
           (detectQueryType "BEGIN DELETE FROM accounts; END;"))
  = SAFE.
Proof.
  apply (proj1 (assessDangerLevel_plsql_other
                  "BEGIN DELETE FROM accounts; END;"
                  (detectQueryType "BEGIN DELETE FROM accounts; END;")
                  (or_introl eq_refl))).
Defined.

Lemma assessDangerLevel_critical_iff_witness :
  level (assessDangerLevel "alter  system kill session '1,2'" OTHER)
  = CRITICAL.
Proof.
  apply (proj2 (assessDangerLevel_critical_iff
                  "alter  system kill session '1,2'" OTHER)).
  split; [ discriminate | vm_compute; reflexivity ].
Defined.

Lemma assessDangerLevel_warnings_witness :
  warnings (assessDangerLevel "INSERT INTO t VALUES (1)" INSERT) = [].
Proof.
  apply (proj2 (proj2 (assessDangerLevel_warnings "INSERT INTO t VALUES (1)"
                         INSERT))).
  right. vm_compute. reflexivity.
Defined.

(* ------------------------------------------------------------------------- *)
(** ** The map of the session cache *)

Lemma get_set_same {V} k (v : V) m : JsMap.get k (JsMap.set k v m) = Some v.
Proof.
  induction m as [ | [k' v'] m IH]; simpl.
  - rewrite String.eqb_refl. reflexivity.
  - destruct (String.eqb k k') eqn:E; simpl; rewrite ?E, ?String.eqb_refl;
      [ reflexivity | exact IH ].
Qed.

Lemma get_set_other {V} k k' (v : V) m :
  k <> k' -> JsMap.get k' (JsMap.set k v m) = JsMap.get k' m.
Proof.
  intro Hne. induction m as [ | [k1 v1] m IH]; simpl.
  - destruct (String.eqb_spec k' k); [ congruence | reflexivity ].
  - destruct (String.eqb_spec k k1) as [-> | Hk]; simpl.
    + destruct (String.eqb_spec k' k1); [ congruence | reflexivity ].
    + destruct (String.eqb k' k1); [ reflexivity | exact IH ].
Qed.

Lemma get_delete_other {V} k k' (m : list (string * V)) :
  k <> k' -> JsMap.get k' (JsMap.delete k m) = JsMap.get k' m.
Proof.
  intro Hne. induction m as [ | [k1 v1] m IH]; simpl; [ reflexivity | ].
  destruct (String.eqb_spec k k1) as [-> | Hk]; simpl.
  - destruct (String.eqb_spec k' k1); [ congruence | exact IH ].
  - destruct (String.eqb k' k1); [ reflexivity | exact IH ].
Qed.

Lemma get_delete_sub {V} k k' (m : list (string * V)) v :
  JsMap.get k' (JsMap.delete k m) = Some v -> JsMap.get k' m = Some v.
Proof.
  destruct (String.eqb_spec k k') as [-> | Hne].
  - rewrite get_delete_same. discriminate.
  - rewrite get_delete_other by exact Hne. auto.
Qed.

Lemma keys_set_in {V} k (v : V) m x :
  In x (JsMap.keys (JsMap.set k v m)) -> x = k \/ In x (JsMap.keys m).
Proof.
  induction m as [ | [k1 v1] m IH]; simpl.
  - intros [<- | []]. left. reflexivity.
  - destruct (String.eqb_spec k k1) as [-> | Hk]; simpl.
    + intros [<- | H]; [ left; reflexivity | right; right; exact H ].
    + intros [<- | H]; [ right; left; reflexivity | ].
      destruct (IH H); [ left; assumption | right; right; assumption ].
Qed.

Lemma NoDup_keys_set {V} k (v : V) m :
  NoDup (JsMap.keys m) -> NoDup (JsMap.keys (JsMap.set k v m)).
Proof.
  induction m as [ | [k1 v1] m IH]; simpl; intro Hnd.
  - constructor; [ intros [] | constructor ].
  - inversion Hnd as [ | ? ? Hnotin Hnd']; subst.
    destruct (String.eqb_spec k k1) as [-> | Hk]; simpl.
    + constructor; assumption.
    + constructor; [ | apply IH; exact Hnd' ].
      intro Hin. destruct (keys_set_in _ _ _ _ Hin); [ congruence | auto ].
Qed.

Lemma keys_delete_in {V} k (m : list (string * V)) x :
  In x (JsMap.keys (JsMap.delete k m)) -> In x (JsMap.keys m).
Proof.
  unfold JsMap.keys, JsMap.delete. rewrite !in_map_iff.
  intros [e [He Hin]]. apply filter_In in Hin. exists e. tauto.
Qed.

Lemma NoDup_keys_delete {V} k (m : list (string * V)) :
  NoDup (JsMap.keys m) -> NoDup (JsMap.keys (JsMap.delete k m)).
Proof.
  induction m as [ | [k1 v1] m IH]; simpl; intro Hnd; [ constructor | ].
  inversion Hnd as [ | ? ? Hnotin Hnd']; subst.
  destruct (String.eqb k k1); simpl; [ apply IH; exact Hnd' | ].
  constructor; [ | apply IH; exact Hnd' ].
  intro Hin. apply Hnotin. eapply keys_delete_in. exact Hin.
Qed.

(* ------------------------------------------------------------------------- *)
(** ** Relations that every step of a computation respects *)

Section Respects.

Variable R : State -> State -> Prop.
Variable okc : DbCall -> Prop.
Variable okf : (list (string * Handle) -> list (string * Handle)) -> Prop.

Hypothesis R_refl : forall st, R st st.
Hypothesis R_trans : forall a b c, R a b -> R b c -> R a c.
Hypothesis R_call : forall c st, okc c -> R st (push c st).
Hypothesis R_conn :
  forall f st,
    okf f ->
    R st (mkState (f (connections st)) (initialized st) (trace st) (clock st)).
Hypothesis R_init :
  forall b st, R st (mkState (connections st) b (trace st) (clock st)).
Hypothesis R_clock :
  forall st,
    R st (mkState (connections st) (initialized st) (trace st) (S (clock st))).

Lemma respects_ret {A} (a : A) : respects R (ret a).
Proof. intro st. apply R_refl. Qed.

Lemma respects_throw {A} msg : respects R (@throw A msg).
Proof. intro st. apply R_refl. Qed.

Lemma respects_lift {A} (o : Outcome A) : respects R (lift o).
Proof. intro st. apply R_refl. Qed.

Lemma respects_get_state : respects R get_state.
Proof. intro st. apply R_refl. Qed.

Lemma respects_set_initialized b : respects R (set_initialized b).
Proof. intro st. apply R_init. Qed.

Lemma respects_Date_now w : respects R (Date_now w).
Proof. intro st. apply R_clock. Qed.

Lemma respects_set_connections f : okf f -> respects R (set_connections f).
Proof. intros Hf st. apply R_conn. exact Hf. Qed.

Lemma respects_invoke {A} c (reply : Trace -> Outcome A) :
  okc c -> respects R (invoke c reply).
Proof. intros Hc st. apply (R_call c st Hc). Qed.

Lemma respects_bind {A B} (c : M A) (f : A -> M B) :
  respects R c -> (forall a, respects R (f a)) -> respects R (bind c f).
Proof.
  intros Hc Hf st. unfold bind. specialize (Hc st).
  destruct (c st) as [[a | e] st']; simpl in *.
  - eapply R_trans; [ exact Hc | apply Hf ].
  - exact Hc.
Qed.

Lemma respects_try_catch {A} (c : M A) (h : string -> M A) :
  respects R c -> (forall e, respects R (h e)) -> respects R (try_catch c h).
Proof.
  intros Hc Hh st. unfold try_catch. specialize (Hc st).
  destruct (c st) as [[a | e] st']; simpl in *.
  - exact Hc.
  - eapply R_trans; [ exact Hc | apply Hh ].
Qed.

Ltac respects_step :=
  match goal with
  | |- respects _ (bind _ _) => apply respects_bind; [ | intro ]
  | |- respects _ (try_catch _ _) => apply respects_try_catch; [ | intro ]
  | |- respects _ (ret _) => apply respects_ret
  | |- respects _ (throw _) => apply respects_throw
  | |- respects _ (lift _) => apply respects_lift
  | |- respects _ get_state => apply respects_get_state
  | |- respects _ (set_initialized _) => apply respects_set_initialized
  | |- respects _ (Date_now _) => apply respects_Date_now
  | |- respects _ (set_connections _) =>
      apply respects_set_connections; solve [ auto ]
  | |- respects _ (invoke _ _) => apply respects_invoke; solve [ auto ]
  | |- respects _ (db_initOracleClient _ _) => unfold db_initOracleClient
  | |- respects _ (db_getConnection _ _ _ _) => unfold db_getConnection
  | |- respects _ (db_ping _ _) => unfold db_ping
  | |- respects _ (db_execute _ _ _ _ _) => unfold db_execute
  | |- respects _ (db_commit _ _) => unfold db_commit
  | |- respects _ (db_rollback _ _) => unfold db_rollback
  | |- respects _ (db_close _ _) => unfold db_close
  | |- respects _ (match ?x with _ => _ end) => destruct x
  | |- respects _ (if ?b then _ else _) => destruct b
  | |- _ => solve [ auto ]
  end.

Ltac respects_solve := repeat respects_step.

(** Computations that only probe and evict. *)

Hypothesis ok_ping : forall h, okc (Ping h).
Hypothesis ok_delete : forall k, okf (JsMap.delete k).

Lemma respects_isConnected w name : respects R (isConnected w name).
Proof. unfold isConnected. respects_solve. Qed.

Lemma respects_listConnections_loop w entries :
  forall result, respects R (listConnections_loop w entries result).
Proof.
  induction entries as [ | [name c] rest IH]; intro result; simpl.
  - apply respects_ret.
  - apply respects_bind; [ apply respects_isConnected | intro; apply IH ].
Qed.

Lemma respects_listConnections w : respects R (listConnections w).
Proof. apply respects_listConnections_loop. Qed.

(** Computations that may call the driver in any way and cache a session. *)

Hypothesis ok_call : forall c, okc c.
Hypothesis ok_set : forall k h, okf (JsMap.set k h).

Lemma respects_initialize w : respects R (initialize w).
Proof. unfold initialize. respects_solve. Qed.

Lemma respects_connect w name : respects R (connect w name).
Proof.
  unfold connect.
  apply respects_bind; [ apply respects_initialize | intro ].
  respects_solve.
Qed.

Lemma respects_getConnection w name : respects R (getConnection w name).
Proof.
  unfold getConnection.
  apply respects_bind; [ apply respects_isConnected | intros [] ].
  - respects_solve.
  - apply respects_connect.
Qed.

Lemma respects_disconnect w name : respects R (disconnect w name).
Proof. unfold disconnect. respects_solve. Qed.

Lemma respects_disconnectAll w : respects R (disconnectAll w).
Proof.
  unfold disconnectAll. apply respects_bind; [ apply respects_get_state | ].
  intro st0. generalize 0%nat.
  induction (JsMap.keys (connections st0)) as [ | k ks IH]; intro n; simpl.
  - apply respects_ret.
  - apply respects_bind; [ apply respects_disconnect | intro; apply IH ].
Qed.

Lemma respects_testConnection w name : respects R (testConnection w name).
Proof.
  unfold testConnection.
  apply respects_bind; [ apply respects_lift | intro ].
  apply respects_try_catch; [ | intro; apply respects_ret ].
  apply respects_bind; [ apply respects_connect | intro ].
  respects_solve.
Qed.

Lemma respects_compilationCheck w h plsql qt t :
  respects R (compilationCheck w h plsql qt t).
Proof. unfold compilationCheck. respects_solve. Qed.

Lemma respects_executeQuery w name sql maxRows params :
  respects R (executeQuery w name sql maxRows params).
Proof.
  unfold executeQuery.
  destruct (negb (QueryType_eqb (detectQueryType sql) SELECT));
    [ apply respects_ret | ].
  apply respects_try_catch; [ | intro; apply respects_ret ].
  apply respects_bind; [ apply respects_getConnection | intro ].
  respects_solve.
Qed.

Lemma respects_executeDml w name sql params commit_flag :
  respects R (executeDml w name sql params commit_flag).
Proof.
  unfold executeDml.
  apply respects_bind; [ apply respects_lift | intro cfg ].
  destruct (cc_mode cfg); [ apply respects_ret | ].
  destruct (DangerLevel_eqb _ CRITICAL); [ apply respects_ret | ].
  unfold executeDml_try. apply respects_try_catch.
  - apply respects_bind; [ apply respects_getConnection | intro ].
    respects_solve.
  - intro e. apply respects_bind; [ | intro; apply respects_ret ].
    apply respects_try_catch; [ | intro; apply respects_ret ].
    apply respects_bind; [ apply respects_getConnection | intro ].
    respects_solve.
Qed.

Lemma respects_executePlsql w name plsql params commit_flag :
  respects R (executePlsql w name plsql params commit_flag).
Proof.
  unfold executePlsql.
  apply respects_bind; [ apply respects_lift | intro cfg ].
  destruct (cc_mode cfg); [ apply respects_ret | ].
  destruct (_ && _); [ apply respects_ret | ].
  unfold executePlsql_try.
  apply respects_try_catch; [ | intro; apply respects_ret ].
  apply respects_bind; [ apply respects_getConnection | intro ].
  apply respects_bind; [ apply respects_Date_now | intro ].
  apply respects_bind; [ respects_solve | intro ].
  apply respects_bind; [ apply respects_Date_now | intro ].
  apply respects_bind; [ respects_solve | intro ].
  apply respects_bind; [ apply respects_compilationCheck | intro ].
  respects_solve.
Qed.

Lemma respects_commit w name : respects R (commit w name).
Proof.
  unfold commit.
  apply respects_bind; [ apply respects_lift | intro cfg ].
  destruct (cc_mode cfg); [ apply respects_ret | ].
  apply respects_try_catch; [ | intro; apply respects_ret ].
  apply respects_bind; [ apply respects_getConnection | intro ].
  respects_solve.
Qed.

Lemma respects_rollback w name : respects R (rollback w name).
Proof.
  unfold rollback.
  apply respects_try_catch; [ | intro; apply respects_ret ].
  apply respects_bind; [ apply respects_getConnection | intro ].
  respects_solve.
Qed.

End Respects.

(* ------------------------------------------------------------------------- *)
(** ** The session cache: one session per name *)

Lemma keeps_distinct_refl st : keeps_distinct st st.
Proof. intro H. exact H. Qed.

Lemma keeps_distinct_trans a b c :
  keeps_distinct a b -> keeps_distinct b c -> keeps_distinct a c.
Proof. unfold keeps_distinct. auto. Qed.

(** X6: no operation of the manager or of the executor ever puts a second
    session under a name: if the names of the cache are distinct before a
    call, they are distinct after it, whatever the driver answers. *)
Theorem cache_keeps_distinct_names w st :
  distinct_names st ->
  (forall name,
     distinct_names (snd (connect w name st))
     /\ distinct_names (snd (getConnection w name st))
     /\ distinct_names (snd (isConnected w name st))
     /\ distinct_names (snd (disconnect w name st))
     /\ distinct_names (snd (testConnection w name st))
     /\ distinct_names (snd (commit w name st))
     /\ distinct_names (snd (rollback w name st)))
  /\ distinct_names (snd (disconnectAll w st))
  /\ distinct_names (snd (listConnections w st))
  /\ (forall name sql maxRows params,
        distinct_names (snd (executeQuery w name sql maxRows params st)))
  /\ (forall name sql params commit_flag,
        distinct_names (snd (executeDml w name sql params commit_flag st))
        /\ distinct_names
             (snd (executePlsql w name sql params commit_flag st))).
Proof.
  intro Hd.
  assert (Hcall : forall c s, (fun _ : DbCall => True) c ->
                              keeps_distinct s (push c s))
    by (intros c s _ H; exact H).
  assert (Hconn : forall f s, keeps_keys_distinct f ->
            keeps_distinct s (mkState (f (connections s)) (initialized s)
                                      (trace s) (clock s)))
    by (intros f s Hf H; apply Hf; exact H).
  assert (Hinit : forall b s,
            keeps_distinct s (mkState (connections s) b (trace s) (clock s)))
    by (intros b s H; exact H).
  assert (Hclock : forall s,
            keeps_distinct s (mkState (connections s) (initialized s)
                                      (trace s) (S (clock s))))
    by (intros s H; exact H).
  assert (Hdel : forall k, keeps_keys_distinct (JsMap.delete k))
    by (intros k m; apply NoDup_keys_delete).
  assert (Hset : forall k h, keeps_keys_distinct (JsMap.set k h))
    by (intros k h m; apply NoDup_keys_set).
  assert (Hany : forall c : DbCall, (fun _ : DbCall => True) c)
    by (intro; exact I).
  assert (Hping : forall h : Handle, (fun _ : DbCall => True) (Ping h))
    by (intro; exact I).
  pose proof keeps_distinct_refl as Hrefl.
  pose proof keeps_distinct_trans as Htrans.
  repeat split; intros;
    match goal with
    | |- distinct_names (snd (?c st)) =>
        let HR := fresh "HR" in
        assert (HR : respects keeps_distinct c);
        [ | exact (HR st Hd) ]
    end.
  - apply respects_connect
      with (okc := fun _ => True) (okf := keeps_keys_distinct); assumption.
  - apply respects_getConnection
      with (okc := fun _ => True) (okf := keeps_keys_distinct); assumption.
  - apply respects_isConnected
      with (okc := fun _ => True) (okf := keeps_keys_distinct); assumption.
  - apply respects_disconnect
      with (okc := fun _ => True) (okf := keeps_keys_distinct); assumption.
  - apply respects_testConnection
      with (okc := fun _ => True) (okf := keeps_keys_distinct); assumption.
  - apply respects_commit
      with (okc := fun _ => True) (okf := keeps_keys_distinct); assumption.
  - apply respects_rollback
      with (okc := fun _ => True) (okf := keeps_keys_distinct); assumption.
  - apply respects_disconnectAll
      with (okc := fun _ => True) (okf := keeps_keys_distinct); assumption.
  - apply respects_listConnections
      with (okc := fun _ => True) (okf := keeps_keys_distinct); assumption.
  - apply respects_executeQuery
      with (okc := fun _ => True) (okf := keeps_keys_distinct); assumption.
  - apply respects_executeDml
      with (okc := fun _ => True) (okf := keeps_keys_distinct); assumption.
  - apply respects_executePlsql
      with (okc := fun _ => True) (okf := keeps_keys_distinct); assumption.
Qed.

Lemma cache_keeps_distinct_names_witness :
  distinct_names
    (snd (executeDml example_world "dev" "INSERT INTO t VALUES (1)" None true
                     fresh_state)).
Proof.
  apply (proj2 (proj2 (proj2 (proj2
           (cache_keeps_distinct_names example_world fresh_state
              (NoDup_nil string)))))).
Defined.

(* ------------------------------------------------------------------------- *)
(** ** Acquiring a session *)

Lemma initialize_ready w st :
  client_ready w st -> initialize w st = (Returned tt, initialised st).
Proof.
  unfold initialize, bind, get_state, initialised.
  intros [Hthin | Hinit].
  - destruct (initialized st) eqn:E.
    + destruct st; simpl in *; subst; reflexivity.
    + rewrite Hthin. reflexivity.
  - rewrite Hinit. destruct st; simpl in *; subst; reflexivity.
Qed.

Lemma connect_unfold w name st st0 :
  initialize w st = (Returned tt, st0) ->
  connect w name st
  = match JsMap.get name (connections st0) with
    | Some existing =>
        bind (try_catch (bind (db_ping w existing) (fun _ => ret true))
                        (fun _ => bind (set_connections (JsMap.delete name))
                                       (fun _ => ret false)))
             (fun reused : bool =>
                if reused then ret existing else connect_fresh w name) st0
    | None => connect_fresh w name st0
    end.
Proof.
  intro Hi. unfold connect. unfold bind at 1. rewrite Hi.
  unfold bind at 1, get_state.
  destruct (JsMap.get name (connections st0)); reflexivity.
Qed.

Lemma post_state_bind {A B} (Q : B -> State -> Prop) (c : M A)
    (f : A -> M B) :
  (forall a, post_state Q (f a)) -> post_state Q (bind c f).
Proof.
  intros Hf st b st' E. unfold bind in E.
  destruct (c st) as [[a | e] st1]; [ | discriminate ].
  eapply Hf. exact E.
Qed.

Lemma connect_fresh_caches w name :
  post_state (fun h st' => JsMap.get name (connections st') = Some h)
             (connect_fresh w name).
Proof.
  unfold connect_fresh.
  do 6 (apply post_state_bind; intro).
  intros st h st' E. unfold bind, set_connections, ret in E.
  inversion E; subst. simpl. apply get_set_same.
Qed.

Lemma connect_caches w name st h st' :
  connect w name st = (Returned h, st') ->
  JsMap.get name (connections st') = Some h.
Proof.
  intro E.
  destruct (initialize w st) as [[[] | e] st0] eqn:Hi.
  2: { unfold connect in E. unfold bind at 1 in E. rewrite Hi in E.
       discriminate. }
  rewrite (connect_unfold w name st st0 Hi) in E.
  destruct (JsMap.get name (connections st0)) as [existing | ] eqn:Hget.
  - unfold bind at 1, try_catch, db_ping, invoke in E.
    unfold bind at 1 in E.
    destruct (drv_ping (driver w) (trace st0) existing).
    + unfold ret in E. inversion E; subst. simpl. exact Hget.
    + unfold bind at 1, set_connections, ret in E.
      eapply connect_fresh_caches. exact E.
  - eapply connect_fresh_caches. exact E.
Qed.

Lemma getConnection_caches w name st h st' :
  getConnection w name st = (Returned h, st') ->
  JsMap.get name (connections st') = Some h.
Proof.
  intro E.
  unfold getConnection in E. unfold bind at 1, isConnected in E.
  unfold bind at 1, get_state in E.
  destruct (JsMap.get name (connections st)) as [c | ] eqn:Hget.
  - unfold try_catch, db_ping, invoke in E. unfold bind at 1 in E.
    destruct (drv_ping (driver w) (trace st) c).
    + unfold ret at 1 in E. unfold bind, get_state in E. simpl in E.
      rewrite Hget in E. unfold ret in E. inversion E; subst. exact Hget.
    + unfold bind at 1, set_connections, ret in E.
      eapply connect_caches. exact E.
  - unfold ret at 1 in E. eapply connect_caches. exact E.
Qed.

(** X7: the session that [getConnection] or [connect] returns is the one the
    cache holds under the name afterwards. *)
Theorem acquired_session_is_cached w name st h st' :
  getConnection w name st = (Returned h, st')
  \/ connect w name st = (Returned h, st') ->
  JsMap.get name (connections st') = Some h.
Proof.
  intros [E | E];
    [ eapply getConnection_caches | eapply connect_caches ]; exact E.
Qed.

Lemma acquired_session_is_cached_witness :
  JsMap.get "prod"
    (connections (snd (getConnection example_world "prod" fresh_state)))
  = Some 0.
Proof.
  apply (acquired_session_is_cached example_world "prod" fresh_state 0).
  left. vm_compute. reflexivity.
Defined.

Lemma getConnection_reuse w name st h :
  JsMap.get name (connections st) = Some h ->
  drv_ping (driver w) (trace st) h = Returned tt ->
  getConnection w name st = (Returned h, push (Ping h) st).
Proof.
  intros Hget Hping. unfold getConnection. unfold bind at 1, isConnected.
  unfold bind at 1, get_state. rewrite Hget.
  unfold try_catch, db_ping, invoke. unfold bind at 1. rewrite Hping.
  unfold ret at 1. unfold bind, get_state. simpl. rewrite Hget. reflexivity.
Qed.

(** X8: a cached session that answers the probe is reused: [getConnection]
    returns it after that one probe, without opening a session and without
    touching the cache.  Hence two acquisitions in a row, the session still
    alive, give the same session. *)
Theorem session_is_reused w name st h :
  (JsMap.get name (connections st) = Some h ->
   drv_ping (driver w) (trace st) h = Returned tt ->
   getConnection w name st = (Returned h, push (Ping h) st))
  /\ (forall st0,
        getConnection w name st0 = (Returned h, st) ->
        drv_ping (driver w) (trace st) h = Returned tt ->
        getConnection w name st = (Returned h, push (Ping h) st)).
Proof.
  split.
  - apply getConnection_reuse.
  - intros st0 E Hping. apply getConnection_reuse; [ | exact Hping ].
    eapply getConnection_caches. exact E.
Qed.

Lemma session_is_reused_witness :
  getConnection example_world "dev" connected_state
  = (Returned 3, push (Ping 3) connected_state).
Proof.
  apply (proj1 (session_is_reused example_world "dev" connected_state 3));
    reflexivity.
Defined.

Lemma connect_fresh_run w name st cfg dsn pw :
  getConnectionConfig w name = Returned cfg ->
  getDsn cfg = Returned dsn ->
  getPassword w cfg = Returned pw ->
  connect_fresh w name st
  = let opened := GetConnection (cc_username cfg) pw dsn in
    match drv_getConnection (driver w) (trace st) (cc_username cfg) pw dsn with
    | Thrown e => (Thrown e, push opened st)
    | Returned h =>
        match cc_mode cfg with
        | READWRITE =>
            (Returned h,
             mkState (JsMap.set name h (connections st)) (initialized st)
                     (opened :: trace st) (clock st))
        | READONLY =>
            match drv_execute (driver w) (opened :: trace st) h
                              "SET TRANSACTION READ ONLY" None None with
            | Returned _ =>
                (Returned h,
                 mkState (JsMap.set name h (connections st)) (initialized st)
                         (set_read_only h :: opened :: trace st) (clock st))
            | Thrown e =>
                (Thrown e,
                 mkState (connections st) (initialized st)
                         (set_read_only h :: opened :: trace st) (clock st))
            end
        end
    end.
Proof.
  intros Hcfg Hdsn Hpw. unfold connect_fresh, bind, lift.
  rewrite Hcfg, Hdsn, Hpw. unfold db_getConnection, invoke. simpl.
  destruct (drv_getConnection (driver w) (trace st) (cc_username cfg) pw dsn);
    [ | reflexivity ].
  destruct (cc_mode cfg); simpl; [ | reflexivity ].
  unfold db_execute, invoke, set_read_only. simpl.
  destruct (drv_execute (driver w) _ a "SET TRANSACTION READ ONLY" None None);
    reflexivity.
Qed.

Lemma connect_no_session w name st :
  JsMap.get name (connections st) = None ->
  client_ready w st ->
  connect w name st = connect_fresh w name (initialised st).
Proof.
  intros Hget Hready.
  rewrite (connect_unfold w name st (initialised st)
             (initialize_ready w st Hready)).
  simpl. rewrite Hget. reflexivity.
Qed.


Lemma initialize_returned w st st0 :
  initialize w st = (Returned tt, st0) ->
  connections st0 = connections st
  /\ initialized st0 = true
  /\ clock st0 = clock st
  /\ (trace st0 = trace st
      \/ exists libDir, trace st0 = InitOracleClient libDir :: trace st)
  /\ (client_ready w st -> st0 = initialised st).
Proof.
  intro Hi.
  assert (Hready : client_ready w st -> st0 = initialised st).
  { intro Hr. rewrite (initialize_ready w st Hr) in Hi.
    inversion Hi. reflexivity. }
  unfold initialize, bind, get_state in Hi.
  destruct (initialized st) eqn:E.
  - inversion Hi; subst st0. repeat split; auto.
  - destruct (oracleClientMode (config w)).
    + inversion Hi; subst st0. simpl. repeat split; auto.
    + destruct (truthy_str (oracleClientPath (config w)));
        unfold db_initOracleClient, invoke in Hi;
        destruct (drv_initOracleClient (driver w) (trace st) _);
        try discriminate; inversion Hi; subst st0; simpl;
        repeat split; eauto.
Qed.

(** X9: [connect] on a name without a cached session, with a configuration
    that resolves, once [initialize] has returned (which it does without a
    driver call in thin mode and when the client library is initialised
    already, and after the call of [initOracleClient] otherwise).  One
    session is opened.  On a read-write connection it is cached at once; on
    a read-only one it is first put into a read-only transaction, and when
    that statement fails [connect] raises its error with the session neither
    cached nor closed. *)
Theorem connect_opens_session w name st st0 cfg dsn pw h :
  JsMap.get name (connections st) = None ->
  initialize w st = (Returned tt, st0) ->
  getConnectionConfig w name = Returned cfg ->
  getDsn cfg = Returned dsn ->
  getPassword w cfg = Returned pw ->
  let opened := GetConnection (cc_username cfg) pw dsn in
  drv_getConnection (driver w) (trace st0) (cc_username cfg) pw dsn
  = Returned h ->
  (trace st0 = trace st
   \/ exists libDir, trace st0 = InitOracleClient libDir :: trace st)
  /\ (client_ready w st -> trace st0 = trace st)
  /\ (cc_mode cfg = READWRITE ->
      connect w name st
      = (Returned h,
         mkState (JsMap.set name h (connections st)) true
                 (opened :: trace st0) (clock st)))
  /\ (cc_mode cfg = READONLY ->
      forall r,
        drv_execute (driver w) (opened :: trace st0) h
                    "SET TRANSACTION READ ONLY" None None = Returned r ->
        connect w name st
        = (Returned h,
           mkState (JsMap.set name h (connections st)) true
                   (set_read_only h :: opened :: trace st0) (clock st)))
  /\ (cc_mode cfg = READONLY ->
      forall e,
        drv_execute (driver w) (opened :: trace st0) h
                    "SET TRANSACTION READ ONLY" None None = Thrown e ->
        connect w name st
        = (Thrown e,
           mkState (connections st) true
                   (set_read_only h :: opened :: trace st0) (clock st))).
Proof.
  intros Hget Hinit Hcfg Hdsn Hpw opened Hopen.
  destruct (initialize_returned w st st0 Hinit)
    as (Hc & Hi & Hk & Htr & Hready).
  split; [ exact Htr | split ].
  { intro Hr. rewrite (Hready Hr). reflexivity. }
  rewrite (connect_unfold w name st st0 Hinit). rewrite Hc, Hget.
  rewrite (connect_fresh_run w name st0 cfg dsn pw Hcfg Hdsn Hpw).
  simpl. fold opened. rewrite Hopen, Hc, Hi, Hk.
  repeat split; intros Hmode; rewrite Hmode; try reflexivity;
    intros x Hx; rewrite Hx; reflexivity.
Qed.

Lemma connect_opens_session_witness :
  connect example_world "prod" fresh_state
  = (Returned 0,
     mkState [("prod", 0)] true
       [set_read_only 0;
        GetConnection "reader" "s3cret"
          "(DESCRIPTION=(ADDRESS=(PROTOCOL=TCP)(HOST=db.example.com)(PORT=1521))(CONNECT_DATA=(SID=ORCL)))"]
       0)
  /\ connect failing_world "prod" fresh_state
     = (Thrown "ORA-00942: table or view does not exist",
        mkState [] true
          [set_read_only 0;
           GetConnection "reader" "s3cret"
             "(DESCRIPTION=(ADDRESS=(PROTOCOL=TCP)(HOST=db.example.com)(PORT=1521))(CONNECT_DATA=(SID=ORCL)))"]
          0)
  /\ connect thick_world "dev" fresh_state
     = (Returned 1,
        mkState [("dev", 1)] true
          [GetConnection "scott" "tiger" "localhost:1521/XEPDB1";
           InitOracleClient (Some "/opt/oracle/instantclient")]
          0).
Proof.
  split; [ | split ].
  - apply (proj1 (proj2 (proj2 (proj2
             (connect_opens_session example_world "prod" fresh_state
                (initialised fresh_state) prod_conn _ "s3cret" 0 eq_refl
                eq_refl eq_refl eq_refl eq_refl eq_refl)))) eq_refl two_rows).
    reflexivity.
  - apply (proj2 (proj2 (proj2 (proj2
             (connect_opens_session failing_world "prod" fresh_state
                (initialised fresh_state) prod_conn _ "s3cret" 0 eq_refl
                eq_refl eq_refl eq_refl eq_refl eq_refl)))) eq_refl).
    reflexivity.
  - apply (proj1 (proj2 (proj2
             (connect_opens_session thick_world "dev" fresh_state
                (mkState [] true
                   [InitOracleClient (Some "/opt/oracle/instantclient")] 0)
                dev_conn _ "tiger" 1 eq_refl eq_refl eq_refl eq_refl eq_refl
                eq_refl)))).
    reflexivity.
Defined.

(** X10: a cached session that fails the probe is evicted and replaced by
    exactly one new session: [getConnection] probes once, opens once (and
    sets up the read-only transaction on a read-only connection), and caches
    the new session under the name. *)
Theorem stale_session_reconnects_once w name st stale e cfg dsn pw h :
  JsMap.get name (connections st) = Some stale ->
  drv_ping (driver w) (trace st) stale = Thrown e ->
  client_ready w st ->
  getConnectionConfig w name = Returned cfg ->
  getDsn cfg = Returned dsn ->
  getPassword w cfg = Returned pw ->
  let opened := GetConnection (cc_username cfg) pw dsn in
  drv_getConnection (driver w) (Ping stale :: trace st) (cc_username cfg) pw dsn
  = Returned h ->
  (cc_mode cfg = READONLY ->
   exists r,
     drv_execute (driver w) (opened :: Ping stale :: trace st) h
                 "SET TRANSACTION READ ONLY" None None = Returned r) ->
  getConnection w name st
  = (Returned h,
     mkState (JsMap.set name h (JsMap.delete name (connections st))) true
             (match cc_mode cfg with
              | READONLY => [set_read_only h]
              | READWRITE => []
              end ++ opened :: Ping stale :: trace st)
             (clock st)).
Proof.
  intros Hget Hping Hready Hcfg Hdsn Hpw opened Hopen Hsetup.
  unfold getConnection. unfold bind at 1, isConnected.
  unfold bind at 1, get_state. rewrite Hget.
  unfold try_catch, db_ping, invoke. unfold bind at 1. rewrite Hping.
  unfold bind at 1, set_connections, ret. simpl.
  match goal with
  | |- connect w name ?s = _ =>
      assert (Hnone : JsMap.get name (connections s) = None)
        by (simpl; apply get_delete_same);
      assert (Hr : client_ready w s) by exact Hready;
      rewrite (connect_no_session w name s Hnone Hr)
  end.
  rewrite (connect_fresh_run w name _ cfg dsn pw Hcfg Hdsn Hpw).
  simpl. fold opened. rewrite Hopen.
  destruct (cc_mode cfg); [ | reflexivity ].
  destruct (Hsetup eq_refl) as [r Hr']. rewrite Hr'. reflexivity.
Qed.

Lemma stale_session_reconnects_once_witness :
  getConnection stale_world "dev" connected_state
  = (Returned 3,
     mkState [("prod", 5); ("dev", 3)] true
       [GetConnection "scott" "tiger" "localhost:1521/XEPDB1"; Ping 3; Ping 5;
        Ping 3]
       0).
Proof.
  apply (stale_session_reconnects_once stale_world "dev" connected_state 3
           "NJS-003: invalid connection" dev_conn _ "tiger" 3 eq_refl eq_refl
           (or_intror eq_refl) eq_refl eq_refl eq_refl eq_refl).
  intro H. discriminate H.
Defined.



(* ------------------------------------------------------------------------- *)
(** ** Looking a connection up *)

Lemma find_snoc {A} (p : A -> bool) l a :
  find p (l ++ [a])
  = match find p l with
    | Some x => Some x
    | None => if p a then Some a else None
    end.
Proof.
  induction l as [ | b l IH]; simpl; [ reflexivity | ].
  destruct (p b); [ reflexivity | exact IH ].
Qed.

Lemma get_set_eqb {V} k k' (v : V) m :
  JsMap.get k' (JsMap.set k v m)
  = if String.eqb k' k then Some v else JsMap.get k' m.
Proof.
  destruct (String.eqb_spec k' k) as [-> | Hne].
  - apply get_set_same.
  - apply get_set_other. congruence.
Qed.

Lemma get_index name l :
  forall m,
    JsMap.get name (fold_left (fun m c => JsMap.set (cc_name c) c m) l m)
    = match last_named name l with
      | Some c => Some c
      | None => JsMap.get name m
      end.
Proof.
  unfold last_named.
  induction l as [ | a l IH]; intro m; simpl; [ reflexivity | ].
  rewrite IH, find_snoc, get_set_eqb.
  destruct (find _ (rev l)); [ reflexivity | ].
  destruct (String.eqb name (cc_name a)); reflexivity.
Qed.

Lemma last_named_sound name l c :
  last_named name l = Some c -> cc_name c = name /\ In c l.
Proof.
  unfold last_named. intro H. apply find_some in H. destruct H as [Hin Heq].
  apply String.eqb_eq in Heq. split; [ congruence | ].
  apply in_rev. exact Hin.
Qed.

Lemma last_named_complete name l :
  In name (map cc_name l) -> exists c, last_named name l = Some c.
Proof.
  unfold last_named. intro Hin. apply in_map_iff in Hin.
  destruct Hin as [c [Hn Hc]].
  destruct (find (fun c0 => String.eqb name (cc_name c0)) (rev l)) eqn:E.
  - eauto.
  - apply in_rev in Hc. pose proof (find_none _ _ E c Hc) as H.
    simpl in H. rewrite Hn, String.eqb_refl in H. discriminate.
Qed.

Lemma find_skip {A} (p : A -> bool) l1 l2 :
  (forall x, In x l1 -> p x = false) -> find p (l1 ++ l2) = find p l2.
Proof.
  induction l1 as [ | a l1 IH]; simpl; intro H; [ reflexivity | ].
  rewrite (H a (or_introl eq_refl)). apply IH. intros x Hx. apply H. right.
  exact Hx.
Qed.

Lemma last_named_last name before c after :
  cc_name c = name ->
  (forall c', In c' after -> cc_name c' <> name) ->
  last_named name (before ++ c :: after) = Some c.
Proof.
  intros Hc Hafter. unfold last_named.
  rewrite rev_app_distr. simpl. rewrite <- app_assoc. simpl.
  rewrite find_skip.
  - simpl. rewrite Hc, String.eqb_refl. reflexivity.
  - intros x Hx. apply in_rev in Hx. apply String.eqb_neq.
    intro Heq. apply (Hafter x Hx). congruence.
Qed.

(** X12: [getConnectionConfig] finds a name exactly when a configured
    connection bears it, and then returns a connection of that name: when
    several bear it, the last one configured.  Any other name raises. *)
Theorem getConnectionConfig_lookup w name :
  (forall c,
     getConnectionConfig w name = Returned c ->
     cc_name c = name /\ In c (sc_connections (config w)))
  /\ (In name (map cc_name (sc_connections (config w))) ->
      exists c, getConnectionConfig w name = Returned c)
  /\ (~ In name (map cc_name (sc_connections (config w))) ->
      exists msg, getConnectionConfig w name = Thrown msg)
  /\ (forall before c after,
        sc_connections (config w) = before ++ c :: after ->
        cc_name c = name ->
        (forall c', In c' after -> cc_name c' <> name) ->
        getConnectionConfig w name = Returned c).
Proof.
  assert (Hget : JsMap.get name (connectionConfigs w)
                 = last_named name (sc_connections (config w))).
  { unfold connectionConfigs. rewrite get_index.
    destruct (last_named name (sc_connections (config w))); reflexivity. }
  unfold getConnectionConfig. rewrite Hget.
  split; [ | split; [ | split ] ].
  - intros c H.
    destruct (last_named name (sc_connections (config w))) as [c0 | ] eqn:E;
      [ | discriminate ].
    inversion H; subst. apply last_named_sound. exact E.
  - intro Hin. destruct (last_named_complete _ _ Hin) as [c Hc].
    rewrite Hc. eauto.
  - intro Hnot.
    destruct (last_named name (sc_connections (config w))) as [c0 | ] eqn:E;
      [ | eauto ].
    exfalso. apply Hnot. destruct (last_named_sound _ _ _ E) as [Hn Hin].
    rewrite <- Hn. apply in_map. exact Hin.
  - intros before c after Hl Hc Hafter.
    rewrite Hl, (last_named_last name before c after Hc Hafter). reflexivity.
Qed.

Lemma getConnectionConfig_lookup_witness :
  getConnectionConfig example_world "prod" = Returned prod_conn
  /\ exists msg, getConnectionConfig example_world "qa" = Thrown msg.
Proof.
  split.
  - apply (proj2 (proj2 (proj2 (getConnectionConfig_lookup example_world
                                  "prod")))
             [dev_conn] prod_conn []); [ reflexivity | reflexivity | ].
    intros c' [].
  - apply (proj1 (proj2 (proj2 (getConnectionConfig_lookup example_world
                                  "qa")))).
    simpl. intuition discriminate.
Defined.

(* ------------------------------------------------------------------------- *)
(** ** Listing and testing connections *)

Lemma only_pings_refl st : only_pings st st.
Proof. split; [ exists []; split; reflexivity | auto ]. Qed.

Lemma only_pings_trans a b c :
  only_pings a b -> only_pings b c -> only_pings a c.
Proof.
  intros [[l1 [H1 P1]] S1] [[l2 [H2 P2]] S2]. split.
  - exists (l2 ++ l1). split.
    + rewrite H2, H1, app_assoc. reflexivity.
    + rewrite forallb_app, P1, P2. reflexivity.
  - intros k h H. apply S1, S2. exact H.
Qed.

Lemma isConnected_probes w name st :
  exists b st1,
    isConnected w name st = (Returned b, st1)
    /\ only_pings st st1
    /\ (b = true -> exists h, JsMap.get name (connections st) = Some h).
Proof.
  unfold isConnected, bind, get_state.
  destruct (JsMap.get name (connections st)) as [h | ] eqn:Hget.
  - unfold try_catch, db_ping, invoke, bind.
    destruct (drv_ping (driver w) (trace st) h).
    + eexists. eexists. split; [ reflexivity | split ].
      * split; [ exists [Ping h]; split; reflexivity | auto ].
      * intros _. eauto.
    + eexists. eexists. split; [ reflexivity | split ].
      * split; [ exists [Ping h]; split; reflexivity | ].
        simpl. intros k h0 H. eapply get_delete_sub. exact H.
      * discriminate.
  - eexists. eexists. split; [ reflexivity | split ].
    + apply only_pings_refl.
    + discriminate.
Qed.

Lemma listConnections_loop_probes w entries :
  forall result st,
  exists infos st',
    listConnections_loop w entries result st = (Returned (result ++ infos), st')
    /\ map ci_name infos = map fst entries
    /\ only_pings st st'
    /\ forall i,
         In i infos -> ci_connected i = true ->
         exists h, JsMap.get (ci_name i) (connections st) = Some h.
Proof.
  induction entries as [ | [name c] rest IH]; intros result st; simpl.
  - exists [], st. rewrite app_nil_r.
    split; [ reflexivity | split; [ reflexivity | split ] ].
    + apply only_pings_refl.
    + intros i [].
  - destruct (isConnected_probes w name st) as (b & st1 & Hrun & Hp & Hb).
    unfold bind. rewrite Hrun.
    destruct (IH (result ++ [connectionInfo name c b]) st1)
      as (infos & st' & Hloop & Hnames & Hp' & Hconn).
    exists (connectionInfo name c b :: infos), st'.
    split; [ | split; [ | split ] ].
    + rewrite Hloop, <- app_assoc. reflexivity.
    + simpl. rewrite Hnames. reflexivity.
    + eapply only_pings_trans; eassumption.
    + intros i [<- | Hin] Hi.
      * simpl in *. apply Hb. exact Hi.
      * destruct (Hconn i Hin Hi) as [h Hh]. exists h.
        destruct Hp as [_ Hsub]. apply Hsub. exact Hh.
Qed.

(** X13: [listConnections] never raises and returns one entry per configured
    name, in the order of the configuration.  It only probes: every driver
    call it makes is a ping, it opens no session and adds none to the cache,
    and it reports as connected only names that had a cached session. *)
Theorem listConnections_probes_only w st :
  exists infos st',
    listConnections w st = (Returned infos, st')
    /\ map ci_name infos = JsMap.keys (connectionConfigs w)
    /\ only_pings st st'
    /\ forall i,
         In i infos -> ci_connected i = true ->
         exists h, JsMap.get (ci_name i) (connections st) = Some h.
Proof.
  destruct (listConnections_loop_probes w (connectionConfigs w) [] st)
    as (infos & st' & Hloop & Hnames & Hp & Hconn).
  exists infos, st'. repeat split; try assumption.
  - destruct Hp as [Ht _]. exact Ht.
  - destruct Hp as [_ Hs]. exact Hs.
Qed.

Lemma testConnection_total_known w name cfg :
  getConnectionConfig w name = Returned cfg -> total (testConnection w name).
Proof.
  intro Hcfg. unfold testConnection. intro st. unfold bind at 1, lift.
  rewrite Hcfg. apply total_try_catch. intro e. apply total_ret.
Qed.

(** X14: [testConnection] raises for a name that is not configured, before
    anything else; for a configured name it always returns a result.  The
    version query is optional: once [connect] has returned a session and the
    database-name and schema queries succeed, the test succeeds whether the
    version query fails or not, the version then being "Unknown". *)
Theorem testConnection_outcomes w name st :
  (forall e,
     getConnectionConfig w name = Thrown e ->
     testConnection w name st = (Thrown e, st))
  /\ (forall cfg,
        getConnectionConfig w name = Returned cfg ->
        exists r st', testConnection w name st = (Returned r, st'))
  /\ (forall cfg h st1 db sc,
        getConnectionConfig w name = Returned cfg ->
        connect w name st = (Returned h, st1) ->
        let q1 := Execute h sql_version None None in
        let q2 := Execute h sql_db_name None None in
        let q3 := Execute h sql_current_schema None None in
        drv_execute (driver w) (q1 :: trace st1) h sql_db_name None None
        = Returned db ->
        drv_execute (driver w) (q2 :: q1 :: trace st1) h sql_current_schema
                    None None = Returned sc ->
        testConnection w name st
        = (Returned
             (mkConnectionTestResult true name
                (first_cell_or (Some "Unknown") db)
                (first_cell_or (Some "Unknown") sc)
                (match drv_execute (driver w) (trace st1) h sql_version
                                   None None with
                 | Returned v => first_cell_or (Some "Unknown") v
                 | Thrown _ => Some "Unknown"
                 end)
                (Some (cc_mode cfg)) None
                ("Successfully connected to '" ++ name ++ "'")%string),
           mkState (connections st1) (initialized st1)
                   (q3 :: q2 :: q1 :: trace st1) (clock st1))).
Proof.
  split; [ | split ].
  - intros e Hcfg. unfold testConnection, bind, lift. rewrite Hcfg.
    reflexivity.
  - intros cfg Hcfg.
    destruct (testConnection_total_known w name cfg Hcfg st) as [r Hr].
    destruct (testConnection w name st) as [o st'] eqn:E. simpl in Hr.
    subst o. eauto.
  - intros cfg h st1 db sc Hcfg Hconn q1 q2 q3 Hdb Hsc.
    unfold testConnection. unfold bind at 1, lift. rewrite Hcfg.
    unfold try_catch at 1. rewrite (bind_returned _ _ _ _ _ Hconn).
    unfold bind at 1. unfold try_catch, db_execute, invoke.
    unfold bind at 1. fold q1.
    destruct (drv_execute (driver w) (trace st1) h sql_version None None);
      unfold ret at 1; unfold bind; simpl; fold q1 q2;
      rewrite Hdb, Hsc; reflexivity.
Qed.

Lemma testConnection_outcomes_witness :
  testConnection example_world "qa" fresh_state
  = (Thrown "Connection 'qa' not found. Available connections: dev, prod",
     fresh_state)
  /\ (exists r st',
        testConnection failing_world "dev" fresh_state = (Returned r, st'))
  /\ exists st',
       testConnection no_version_world "dev" fresh_state
       = (Returned
            (mkConnectionTestResult true "dev" (Some "1") (Some "1")
               (Some "Unknown") (Some READWRITE) None
               "Successfully connected to 'dev'"),
          st').
Proof.
  split; [ | split ].
  - apply (proj1 (testConnection_outcomes example_world "qa" fresh_state)).
    reflexivity.
  - apply (proj1 (proj2 (testConnection_outcomes failing_world "dev"
                           fresh_state)) dev_conn).
    reflexivity.
  - eexists.
    apply (proj2 (proj2 (testConnection_outcomes no_version_world "dev"
                           fresh_state))
             dev_conn 0
             (mkState [("dev", 0)] true
                [GetConnection "scott" "tiger" "localhost:1521/XEPDB1"] 0)
             two_rows two_rows); reflexivity.
Defined.

Lemma listConnections_probes_only_witness :
  exists infos st',
    listConnections example_world connected_state = (Returned infos, st')
    /\ map ci_name infos = ["dev"; "prod"].
Proof.
  destruct (listConnections_probes_only example_world connected_state)
    as (infos & st' & Hrun & Hnames & _).
  exists infos, st'. split; [ exact Hrun | exact Hnames ].
Defined.


(* ------------------------------------------------------------------------- *)
(** ** What the executor sends to the driver *)

Lemma total_returns {A} (c : M A) st :
  total c -> exists a st', c st = (Returned a, st').
Proof.
  intro H. destruct (H st) as [a Ha].
  destruct (c st) as [o st'] eqn:E. simpl in Ha. subst o. eauto.
Qed.

Lemma executeQuery_total w name sql maxRows params :
  total (executeQuery w name sql maxRows params).
Proof.
  unfold executeQuery.
  destruct (negb (QueryType_eqb (detectQueryType sql) SELECT));
    [ apply total_ret | ].
  apply total_try_catch. intro. apply total_ret.
Qed.

Lemma executePlsql_try_total w name plsql params commit_flag qt ws :
  total (executePlsql_try w name plsql params commit_flag qt ws).
Proof.
  unfold executePlsql_try. apply total_try_catch. intro. apply total_ret.
Qed.

(** X15: [executeQuery] and [rollback] never raise: every error, an unknown
    connection name included, comes back as an outcome.  [executeDml],
    [executePlsql] and [commit] raise in exactly one case, a connection name
    that is not configured, and then before anything is touched; for a
    configured name they always return an outcome. *)
Theorem executor_raises_only_for_unknown_name w name st :
  (forall sql maxRows params,
     exists r st', executeQuery w name sql maxRows params st = (Returned r, st'))
  /\ (exists r st', rollback w name st = (Returned r, st'))
  /\ (forall cfg sql params commit_flag,
        getConnectionConfig w name = Returned cfg ->
        (exists r st',
           executeDml w name sql params commit_flag st = (Returned r, st'))
        /\ (exists r st',
              executePlsql w name sql params commit_flag st
              = (Returned r, st'))
        /\ (exists r st', commit w name st = (Returned r, st')))
  /\ (forall e sql params commit_flag,
        getConnectionConfig w name = Thrown e ->
        executeDml w name sql params commit_flag st = (Thrown e, st)
        /\ executePlsql w name sql params commit_flag st = (Thrown e, st)
        /\ commit w name st = (Thrown e, st)).
Proof.
  split; [ | split; [ | split ] ].
  - intros. apply total_returns, executeQuery_total.
  - apply total_returns. unfold rollback. apply total_try_catch.
    intro. apply total_ret.
  - intros cfg sql params commit_flag Hcfg.
    split; [ | split ]; apply total_returns; intro s.
    + unfold executeDml, bind, lift. rewrite Hcfg.
      destruct (cc_mode cfg); [ apply total_ret | ].
      destruct (DangerLevel_eqb _ CRITICAL);
        [ apply total_ret | apply executeDml_try_total ].
    + unfold executePlsql, bind, lift. rewrite Hcfg.
      destruct (cc_mode cfg); [ apply total_ret | ].
      destruct (_ && _);
        [ apply total_ret | apply executePlsql_try_total ].
    + unfold commit. unfold bind at 1, lift. rewrite Hcfg.
      destruct (cc_mode cfg); [ apply total_ret | ].
      apply total_try_catch. intro. apply total_ret.
  - intros e sql params commit_flag Hcfg.
    unfold executeDml, executePlsql, commit, bind, lift. rewrite Hcfg.
    repeat split.
Qed.

Lemma executor_raises_only_for_unknown_name_witness :
  commit example_world "qa" fresh_state
  = (Thrown "Connection 'qa' not found. Available connections: dev, prod",
     fresh_state)
  /\ exists r st',
       executePlsql failing_world "dev" "BEGIN NULL; END;" None true
                    fresh_state = (Returned r, st').
Proof.
  split.
  - apply (proj2 (proj2 (proj2 (executor_raises_only_for_unknown_name
                                  example_world "qa" fresh_state)))
             _ "" None true eq_refl).
  - apply (proj1 (proj2 (proj1 (proj2 (proj2
             (executor_raises_only_for_unknown_name failing_world "dev"
                fresh_state)))
             dev_conn "BEGIN NULL; END;" None true eq_refl))).
Defined.

(** X16: [executeQuery] checks neither the mode of the connection nor the
    danger of the text.  For a text of kind SELECT, whatever else it contains
    and on a read-only connection as well, the text is sent as it is to the
    session that is acquired, with the limit that the sum of the effective
    row cap and 1 gives as a number (one more than the cap, for a cap that is
    at least -2^53 and below 2^53), and that query is the last driver call of
    the run; the outcome is a success when the driver answers and the failure
    "Query failed: ..." with the driver's error when it raises. *)
Theorem executeQuery_ungated w name sql maxRows params st h st1 :
  detectQueryType sql = SELECT ->
  getConnection w name st = (Returned h, st1) ->
  let N := effectiveMaxRows maxRows (defaultMaxRows (config w)) in
  let options :=
    Some (mkExecuteOptions (Some (Js.add N 1)) None (Some OUT_FORMAT_ARRAY)) in
  let answer := drv_execute (driver w) (trace st1) h sql
                            (Some (binds_or_empty params)) options in
  trace (snd (executeQuery w name sql maxRows params st))
  = Execute h sql (Some (binds_or_empty params)) options :: trace st1
  /\ ((- 2 ^ 53 <= N < 2 ^ 53)%Z -> Js.add N 1 = (N + 1)%Z)
  /\ (forall e,
        answer = Thrown e ->
        fst (executeQuery w name sql maxRows params st)
        = Returned (failed SELECT ("Query failed: " ++ e)%string e None None))
  /\ (forall res,
        answer = Returned res ->
        exists r,
          fst (executeQuery w name sql maxRows params st) = Returned r
          /\ qr_success r = true).
Proof.
  intros Hsel Hget N options answer.
  split; [ | split ].
  2: { intro HN. apply add_exact.
       change (2 ^ 53)%Z with 9007199254740992%Z in *. lia. }
  all: unfold executeQuery; rewrite Hsel; simpl; fold N;
    unfold try_catch; rewrite (bind_returned _ _ _ _ _ Hget);
    unfold Date_now, db_execute, invoke, bind; simpl;
    fold options; fold answer.
  - destruct answer; reflexivity.
  - destruct answer as [res | e]; simpl; split.
    + discriminate.
    + intros res' _. eexists. split; reflexivity.
    + intros e' H. inversion H; subst. reflexivity.
    + discriminate.
Qed.

Lemma executeQuery_ungated_witness :
  trace (snd (executeQuery example_world "prod"
                "select 1 from dual; drop table t" None None connected_state))
  = Execute 5 "select 1 from dual; drop table t" (Some [])
      (Some (mkExecuteOptions (Some 101%Z) None (Some OUT_FORMAT_ARRAY)))
      :: Ping 5 :: trace connected_state.
Proof.
  apply (proj1 (executeQuery_ungated example_world "prod"
                  "select 1 from dual; drop table t" None None
                  connected_state 5 (push (Ping 5) connected_state)
                  eq_refl eq_refl)).
Defined.

Lemma failed_not_success qt m e t ws : qr_success (failed qt m e t ws) = false.
Proof. reflexivity. Qed.

Lemma executeDml_reaches_try w name sql params commit_flag st r st' :
  executeDml w name sql params commit_flag st = (Returned r, st') ->
  qr_success r = true ->
  executeDml_try w name sql params commit_flag (detectQueryType sql)
    (warnings (assessDangerLevel sql (detectQueryType sql))) st
  = (Returned r, st').
Proof.
  intros E Hok. unfold executeDml, bind, lift in E.
  destruct (getConnectionConfig w name) as [cfg | e]; [ | discriminate ].
  destruct (cc_mode cfg).
  - unfold ret in E. inversion E; subst. discriminate.
  - destruct (DangerLevel_eqb _ CRITICAL); [ | exact E ].
    unfold ret in E. inversion E; subst. discriminate.
Qed.

(** X17: a successful [executeDml] sent the statement with auto-commit off to
    the session it acquired, and nothing after it but the commit when the
    caller asked for one: with [commit = false] no commit is issued.  The
    outcome reports the driver's count of affected rows, 0 when it gives
    none. *)
Theorem executeDml_success_commits w name sql params commit_flag st r st' :
  executeDml w name sql params commit_flag st = (Returned r, st') ->
  qr_success r = true ->
  exists h st1 res,
    getConnection w name st = (Returned h, st1)
    /\ drv_execute (driver w) (trace st1) h sql
                   (Some (binds_or_empty params)) no_autocommit = Returned res
    /\ trace st'
       = commit_calls commit_flag h ++ statement_call h sql params :: trace st1
    /\ (commit_flag = true ->
        drv_commit (driver w) (statement_call h sql params :: trace st1) h
        = Returned tt)
    /\ qr_affectedRows r
       = Some (match rowsAffected res with Some n => n | None => 0%Z end).
Proof.
  intros E Hok. apply executeDml_reaches_try in E; [ | exact Hok ].
  unfold executeDml_try in E. unfold try_catch at 1 in E.
  match type of E with
  | (let (o, s) := ?body st in _) = _ =>
      destruct (body st) as [[r0 | e] s2] eqn:Hbody
  end.
  2: { exfalso. unfold bind at 1 in E.
       match type of E with
       | (let (o, s) := ?c s2 in _) = _ => destruct (c s2) as [[u | e'] s3]
       end; [ | discriminate ].
       unfold ret in E. inversion E; subst. discriminate. }
  inversion E; subst r0 s2; clear E.
  unfold bind at 1 in Hbody.
  destruct (getConnection w name st) as [[h | e] st1] eqn:Hget;
    [ | discriminate ].
  exists h, st1.
  unfold Date_now, db_execute, invoke in Hbody. unfold bind at 1 2 in Hbody.
  simpl in Hbody. fold no_autocommit in Hbody.
  destruct (drv_execute (driver w) (trace st1) h sql
              (Some (binds_or_empty params)) no_autocommit)
    as [res | e] eqn:Hexec; [ | discriminate ].
  exists res. unfold bind at 1 in Hbody. simpl in Hbody.
  destruct commit_flag.
  - unfold db_commit, invoke, bind in Hbody. simpl in Hbody.
    fold no_autocommit in Hbody.
    destruct (drv_commit (driver w) _ h) as [[] | e] eqn:Hcommit;
      [ | discriminate ].
    unfold ret in Hbody. inversion Hbody; subst. simpl.
    repeat split; try discriminate.
  - unfold bind, ret in Hbody. simpl in Hbody. inversion Hbody; subst. simpl.
    repeat split; try discriminate.
Qed.

Lemma executeDml_success_commits_witness :
  trace (snd (tool_execute_dml example_world "dev"
                "UPDATE t SET a = 1 WHERE id = 2" (Some false) fresh_state))
  = [statement_call 0 "UPDATE t SET a = 1 WHERE id = 2" None;
     GetConnection "scott" "tiger" "localhost:1521/XEPDB1"].
Proof.
  destruct (executeDml_success_commits example_world "dev"
              "UPDATE t SET a = 1 WHERE id = 2" None false fresh_state
              _ _ eq_refl eq_refl)
    as (h & st1 & res & Hget & _ & Htr & _).
  vm_compute in Hget. inversion Hget; subst h st1. exact Htr.
Defined.

(** X18: when the statement of [executeDml] fails, or the commit after it,
    and the session still answers the probe, the driver receives a rollback
    on that same session, and the outcome is the failure "Statement
    failed: ..." with the error of the statement (or of the commit) and the
    assessor's warnings, whether the rollback itself succeeds or raises. *)
Theorem executeDml_failure_rolls_back w name cfg sql params commit_flag st
    h st1 e :
  getConnectionConfig w name = Returned cfg ->
  cc_mode cfg = READWRITE ->
  let qt := detectQueryType sql in
  let a := assessDangerLevel sql qt in
  level a <> CRITICAL ->
  getConnection w name st = (Returned h, st1) ->
  let sent := statement_call h sql params :: trace st1 in
  let answer := drv_execute (driver w) (trace st1) h sql
                            (Some (binds_or_empty params)) no_autocommit in
  let outcome :=
    Returned (failed qt ("Statement failed: " ++ e)%string e None
                     (if_nonempty (warnings a))) in
  (answer = Thrown e ->
   drv_ping (driver w) sent h = Returned tt ->
   executeDml w name sql params commit_flag st
   = (outcome,
      mkState (connections st1) (initialized st1)
              (Rollback h :: Ping h :: sent) (S (clock st1))))
  /\ (forall res,
        answer = Returned res ->
        commit_flag = true ->
        drv_commit (driver w) sent h = Thrown e ->
        drv_ping (driver w) (Commit h :: sent) h = Returned tt ->
        executeDml w name sql params commit_flag st
        = (outcome,
           mkState (connections st1) (initialized st1)
                   (Rollback h :: Ping h :: Commit h :: sent)
                   (S (S (clock st1))))).
Proof.
  intros Hcfg Hmode qt a Hl Hget sent answer outcome.
  assert (Hcached : JsMap.get name (connections st1) = Some h)
    by (eapply getConnection_caches; exact Hget).
  assert (Hrun : executeDml w name sql params commit_flag st
                 = executeDml_try w name sql params commit_flag qt
                     (warnings a) st).
  { unfold executeDml, bind, lift. rewrite Hcfg, Hmode. fold qt. fold a.
    destruct (level a); try congruence; reflexivity. }
  rewrite Hrun. clear Hrun.
  split; [ intros Hans Hping | intros res Hans Hflag Hcommit Hping ];
    unfold executeDml_try; unfold try_catch at 1;
    rewrite (bind_returned _ _ _ _ _ Hget);
    unfold Date_now, db_execute, invoke; unfold bind at 1 2; simpl;
    fold no_autocommit; fold answer.
  - rewrite Hans. unfold bind at 1, try_catch.
    match goal with
    | |- context [bind (getConnection w name) _ ?s] =>
        rewrite (bind_returned _ _ _ _ _
                   (getConnection_reuse w name s h Hcached Hping))
    end.
    unfold db_rollback, invoke. simpl.
    destruct (drv_rollback (driver w) _ h); reflexivity.
  - rewrite Hans, Hflag.
    unfold bind at 1. simpl. unfold db_commit, invoke. unfold bind at 1 2.
    simpl. fold no_autocommit. fold (statement_call h sql params). fold sent.
    rewrite Hcommit. unfold bind at 1, try_catch.
    match goal with
    | |- context [bind (getConnection w name) _ ?s] =>
        rewrite (bind_returned _ _ _ _ _
                   (getConnection_reuse w name s h Hcached Hping))
    end.
    unfold db_rollback, invoke. simpl.
    destruct (drv_rollback (driver w) _ h); reflexivity.
Qed.

Lemma executeDml_failure_rolls_back_witness :
  executeDml failing_world "dev" "INSERT INTO missing VALUES (1)" None true
             fresh_state
  = (Returned
       (failed INSERT
          "Statement failed: ORA-00942: table or view does not exist"
          "ORA-00942: table or view does not exist" None None),
     mkState [("dev", 0)] true
       [Rollback 0; Ping 0;
        statement_call 0 "INSERT INTO missing VALUES (1)" None;
        GetConnection "scott" "tiger" "localhost:1521/XEPDB1"]
       1).
Proof.
  apply (proj1 (executeDml_failure_rolls_back failing_world "dev" dev_conn
                  "INSERT INTO missing VALUES (1)" None true fresh_state 0
                  (mkState [("dev", 0)] true
                     [GetConnection "scott" "tiger" "localhost:1521/XEPDB1"]
                     0)
                  "ORA-00942: table or view does not exist"
                  eq_refl eq_refl
                  ltac:(vm_compute; discriminate) eq_refl));
    reflexivity.
Defined.

Lemma compilationCheck_no_create w h plsql qt t st :
  Js.includes (Js.toUpperCase plsql) "CREATE" = false ->
  compilationCheck w h plsql qt t st = (Returned (inl None), st).
Proof. intro H. unfold compilationCheck. rewrite H. reflexivity. Qed.

Lemma compilationCheck_failure w h plsql qt t st r st' :
  compilationCheck w h plsql qt t st = (Returned (inr r), st') ->
  exists m,
    exec true createdObject plsql = Some m
    /\ qr_success r = false
    /\ qr_error r
       = Some ("Compilation failed for " ++ created_type m ++ " "
               ++ created_name m)%string
    /\ qr_executionTime r = Some t
    /\ trace st'
       = Execute h sql_object_errors (status_binds m) None
         :: Execute h sql_object_status (status_binds m) None :: trace st.
Proof.
  unfold compilationCheck. intro E.
  destruct (Js.includes (Js.toUpperCase plsql) "CREATE"); [ | discriminate ].
  destruct (exec true createdObject plsql) as [m | ]; [ | discriminate ].
  exists m. fold (created_type m) (created_name m) in E.
  unfold bind at 1, db_execute, invoke in E. simpl in E.
  destruct (drv_execute (driver w) (trace st) h sql_object_status _ None)
    as [statusResult | e]; [ | discriminate ].
  destruct (rows statusResult) as [[ | row0 rest] | ]; try discriminate.
  match type of E with
  | context [if ?b then _ else _] => destruct b
  end; [ | unfold ret in E; discriminate ].
  unfold bind, db_execute, invoke in E. simpl in E.
  destruct (drv_execute (driver w) _ h sql_object_errors _ None)
    as [errorsResult | e]; [ | discriminate ].
  destruct (rows errorsResult) as [[ | e1 es] | ];
    try (unfold ret in E; discriminate).
  unfold ret in E. inversion E; subst. simpl. repeat split.
Qed.

(** X19: an outcome of [executePlsql] that carries an elapsed time, be it a
    success or a compilation failure, means that the statement was run on
    the acquired session and, when the caller asked for it, committed: the
    commit comes before the status lookup.  A failure among these outcomes
    is a compilation failure of the created object, found by the two lookup
    queries; a text without CREATE is followed by no lookup. *)
Theorem executePlsql_elapsed_means_ran w name plsql params commit_flag st
    r st' :
  executePlsql w name plsql params commit_flag st = (Returned r, st') ->
  qr_executionTime r <> None ->
  exists h st1 res lookups,
    getConnection w name st = (Returned h, st1)
    /\ drv_execute (driver w) (trace st1) h plsql
                   (Some (binds_or_empty params)) no_autocommit = Returned res
    /\ (commit_flag = true ->
        drv_commit (driver w) (statement_call h plsql params :: trace st1) h
        = Returned tt)
    /\ trace st'
       = lookups ++ commit_calls commit_flag h
           ++ statement_call h plsql params :: trace st1
    /\ (Js.includes (Js.toUpperCase plsql) "CREATE" = false ->
        lookups = [] /\ qr_success r = true)
    /\ (qr_success r = false ->
        exists m,
          exec true createdObject plsql = Some m
          /\ qr_error r
             = Some ("Compilation failed for " ++ created_type m ++ " "
                     ++ created_name m)%string
          /\ lookups
             = [Execute h sql_object_errors (status_binds m) None;
                Execute h sql_object_status (status_binds m) None]).
Proof.
  intros E Ht. unfold executePlsql, bind, lift in E.
  destruct (getConnectionConfig w name) as [cfg | e]; [ | discriminate ].
  destruct (cc_mode cfg).
  { unfold ret in E. inversion E; subst. exfalso. apply Ht. reflexivity. }
  destruct (_ && _).
  { unfold ret in E. inversion E; subst. exfalso. apply Ht. reflexivity. }
  unfold executePlsql_try in E. unfold try_catch at 1 in E.
  match type of E with
  | (let (o, s) := ?body st in _) = _ =>
      destruct (body st) as [[r0 | e] s2] eqn:Hbody
  end.
  2: { unfold ret in E. inversion E; subst. exfalso. apply Ht. reflexivity. }
  inversion E; subst r0 s2; clear E.
  unfold bind at 1 in Hbody.
  destruct (getConnection w name st) as [[h | e] st1] eqn:Hget;
    [ | discriminate ].
  exists h, st1.
  unfold Date_now, db_execute, invoke in Hbody. unfold bind at 1 2 in Hbody.
  simpl in Hbody. fold no_autocommit in Hbody.
  destruct (drv_execute (driver w) (trace st1) h plsql
              (Some (binds_or_empty params)) no_autocommit)
    as [res | e] eqn:Hexec; [ | discriminate ].
  exists res. unfold bind at 1 in Hbody. simpl in Hbody.
  fold (statement_call h plsql params) in Hbody.
  unfold bind at 1 in Hbody.
  assert (Hcommitted :
    exists s3,
      (if commit_flag then db_commit w h else ret tt)
        (mkState (connections st1) (initialized st1)
                 (statement_call h plsql params :: trace st1)
                 (S (S (clock st1))))
      = (Returned tt, s3)
      /\ trace s3
         = commit_calls commit_flag h
             ++ statement_call h plsql params :: trace st1
      /\ (commit_flag = true ->
          drv_commit (driver w) (statement_call h plsql params :: trace st1) h
          = Returned tt)).
  { destruct commit_flag.
    - unfold db_commit, invoke in *. simpl in *.
      destruct (drv_commit (driver w) _ h) as [[] | e]; [ | discriminate ].
      eexists. repeat split.
    - eexists. repeat split. discriminate. }
  destruct Hcommitted as (s3 & Hc & Htr3 & Hcommit).
  rewrite Hc in Hbody. unfold bind at 1 in Hbody.
  destruct (compilationCheck w h plsql (detectQueryType plsql) _ s3)
    as [[[status | failure] | e] s4] eqn:Hcc; [ | | discriminate ].
  - unfold ret in Hbody. inversion Hbody; subst r st'; clear Hbody.
    destruct (Js.includes (Js.toUpperCase plsql) "CREATE") eqn:Hinc.
    + destruct (mono_compilationCheck w h plsql (detectQueryType plsql)
                  (seconds (drv_now (driver w) (clock st1))
                           (drv_now (driver w) (S (clock st1)))) s3)
        as [lookups Hl].
      rewrite Hcc in Hl. simpl in Hl. exists lookups.
      split; [ reflexivity | split; [ reflexivity | split ] ];
        [ exact Hcommit | ].
      split; [ rewrite Hl, Htr3; reflexivity | ].
      split; [ discriminate | ]. simpl. discriminate.
    + rewrite (compilationCheck_no_create w h plsql _ _ s3 Hinc) in Hcc.
      inversion Hcc; subst. exists [].
      split; [ reflexivity | split; [ reflexivity | split ] ];
        [ exact Hcommit | ].
      split; [ exact Htr3 | ].
      split; [ intros _; split; reflexivity | ]. simpl. discriminate.
  - unfold ret in Hbody. inversion Hbody; subst r st'; clear Hbody.
    destruct (compilationCheck_failure w h plsql _ _ s3 failure s4 Hcc)
      as (m & Hm & Hfail & Herr & _ & Htr4).
    exists [Execute h sql_object_errors (status_binds m) None;
            Execute h sql_object_status (status_binds m) None].
    split; [ reflexivity | split; [ reflexivity | split ] ];
      [ exact Hcommit | ].
    split; [ rewrite Htr4, Htr3; reflexivity | ].
    split.
    + intro Hinc.
      rewrite (compilationCheck_no_create w h plsql _ _ s3 Hinc) in Hcc.
      discriminate.
    + intros _. exists m. repeat split; assumption.
Qed.

Lemma executePlsql_elapsed_means_ran_witness :
  exists r st',
    executePlsql example_world "dev"
      "create or replace procedure p as begin null end;" None true fresh_state
    = (Returned r, st')
    /\ qr_success r = false
    /\ qr_error r = Some "Compilation failed for PROCEDURE P"
    /\ In (Commit 0) (trace st').
Proof.
  eexists. eexists. split; [ vm_compute; reflexivity | ].
  destruct (executePlsql_elapsed_means_ran example_world "dev"
              "create or replace procedure p as begin null end;" None true
              fresh_state _ _ eq_refl ltac:(discriminate))
    as (h & st1 & res & lookups & Hget & _ & _ & Htr & _ & Hfail).
  destruct (Hfail eq_refl) as (m & Hm & Herr & Hl).
  vm_compute in Hm. inversion Hm; subst m; clear Hm.
  split; [ reflexivity | split; [ exact Herr | ] ].
  vm_compute. tauto.
Defined.

(* ------------------------------------------------------------------------- *)
(** ** Transaction control *)

(** X20: [rollback] is not gated by the mode of the connection: on any
    connection whose session is acquired it hands the rollback to that
    session, as the last driver call, and succeeds exactly when the driver
    does.  [commit] does the same with a commit on a read-write
    connection. *)
Theorem transaction_control_delegates w name st h st1 :
  getConnection w name st = (Returned h, st1) ->
  (exists r,
     rollback w name st = (Returned r, push (Rollback h) st1)
     /\ (qr_success r = true
         <-> drv_rollback (driver w) (trace st1) h = Returned tt))
  /\ (forall cfg,
        getConnectionConfig w name = Returned cfg ->
        cc_mode cfg = READWRITE ->
        exists r,
          commit w name st = (Returned r, push (Commit h) st1)
          /\ (qr_success r = true
              <-> drv_commit (driver w) (trace st1) h = Returned tt)).
Proof.
  intro Hget. split.
  - unfold rollback, try_catch. rewrite (bind_returned _ _ _ _ _ Hget).
    unfold db_rollback, invoke, bind, push. simpl.
    destruct (drv_rollback (driver w) (trace st1) h) as [[] | e];
      eexists; (split; [ reflexivity | ]); simpl; split;
      try reflexivity; discriminate.
  - intros cfg Hcfg Hmode. unfold commit. unfold bind at 1, lift.
    rewrite Hcfg, Hmode. unfold try_catch.
    rewrite (bind_returned _ _ _ _ _ Hget).
    unfold db_commit, invoke, bind, push. simpl.
    destruct (drv_commit (driver w) (trace st1) h) as [[] | e];
      eexists; (split; [ reflexivity | ]); simpl; split;
      try reflexivity; discriminate.
Qed.

Lemma transaction_control_delegates_witness :
  exists r,
    rollback failing_world "prod" connected_state
    = (Returned r, push (Rollback 5) (push (Ping 5) connected_state))
    /\ (qr_success r = true
        <-> drv_rollback (driver failing_world)
                         (trace (push (Ping 5) connected_state)) 5
            = Returned tt).
Proof.
  apply (proj1 (transaction_control_delegates failing_world "prod"
                  connected_state 5 (push (Ping 5) connected_state)
                  eq_refl)).
Defined.

(* ------------------------------------------------------------------------- *)
(** ** Reading the configuration *)

Lemma or_Z_nonzero a b d : d <> 0%Z -> or_Z a b d <> 0%Z.
Proof.
  intro Hd. unfold or_Z.
  destruct a as [x | ]; [ destruct (Z.eqb_spec x 0); [ | assumption ] | ];
    (destruct b as [y | ]; [ destruct (Z.eqb_spec y 0) | ]; assumption).
Qed.

(** X21: [parseConfig] keeps the connections of the raw configuration, in
    order and under their names, and makes a connection read-write only when
    its mode is given and reads "readwrite" whatever the case of its letters:
    a missing, empty or misspelt mode gives a read-only connection. *)
Theorem parseConfig_read_only_by_default raw :
  map cc_name (sc_connections (parseConfig raw))
  = map rc_name (raw_connection_list raw)
  /\ (forall cfg,
        In cfg (sc_connections (parseConfig raw)) ->
        cc_mode cfg = READWRITE ->
        exists c m,
          In c (raw_connection_list raw)
          /\ cfg = parseConnection c
          /\ rc_mode c = Some m
          /\ toLowerCase m = "readwrite")
  /\ (forall c m,
        rc_mode c = Some m -> toLowerCase m = "readwrite" ->
        cc_mode (parseConnection c) = READWRITE).
Proof.
  unfold parseConfig. simpl. fold (raw_connection_list raw).
  split; [ | split ].
  - rewrite map_map. reflexivity.
  - intros cfg Hin Hmode. apply in_map_iff in Hin.
    destruct Hin as [c [Hc Hin]]. subst cfg.
    unfold parseConnection, parseMode, or_lit, truthy_str in Hmode.
    simpl in Hmode.
    destruct (rc_mode c) as [m | ] eqn:Hm; [ | discriminate ].
    destruct m as [ | a m']; [ discriminate | ]. simpl Js.truthy in Hmode.
    cbv iota in Hmode.
    destruct (String.eqb_spec (toLowerCase (String a m')) "readwrite")
      as [Hrw | ]; [ | discriminate ].
    exists c, (String a m'). repeat split; assumption.
  - intros c m Hm Hrw. unfold parseConnection, parseMode, or_lit, truthy_str.
    simpl. rewrite Hm.
    destruct m as [ | a m']; [ discriminate | ]. simpl Js.truthy. cbv iota.
    rewrite Hrw. reflexivity.
Qed.

Lemma parseConfig_read_only_by_default_witness :
  cc_mode (parseConnection
             (mkRawConnection "dev" (Some "localhost") None None
                (Some "XEPDB1") None None None (Some "scott") (Some "tiger")
                None None (Some "ReadWrite")))
  = READWRITE.
Proof.
  apply (proj2 (proj2 (parseConfig_read_only_by_default
                         (mkRawConfig None None None None)))
           _ "ReadWrite"); reflexivity.
Defined.

(** X22: in the parsed configuration a default row cap, a query timeout or
    a port that is missing or 0 is replaced, by 100, 30 and 1521, and one
    that is not 0 is kept; of the two spellings of a setting the snake_case
    one is read first.  So none of them is ever 0, and on a manager built
    from a parsed configuration the query of [executeQuery] is never sent for
    an effective row cap of 0: the call that the driver receives carries the
    limit of the caller's cap or, when the caller gives none or 0, of the
    parsed default. *)
Theorem parseConfig_defaults raw :
  let settings := match raw_settings raw with
                  | Some s => s
                  | None => mkRawSettings None None None None
                  end in
  let falsy (v : option Z) := v = None \/ v = Some 0%Z in
  let D := defaultMaxRows (parseConfig raw) in
  ((forall n, rs_default_max_rows settings = Some n -> n <> 0%Z -> D = n)
   /\ (falsy (rs_default_max_rows settings) ->
       forall n, rs_defaultMaxRows settings = Some n -> n <> 0%Z -> D = n)
   /\ (falsy (rs_default_max_rows settings) ->
       falsy (rs_defaultMaxRows settings) -> D = 100%Z)
   /\ D <> 0%Z)
  /\ ((forall n,
         rs_query_timeout settings = Some n -> n <> 0%Z ->
         queryTimeout (parseConfig raw) = n)
      /\ (falsy (rs_query_timeout settings) ->
          forall n,
            rs_queryTimeout settings = Some n -> n <> 0%Z ->
            queryTimeout (parseConfig raw) = n)
      /\ (falsy (rs_query_timeout settings) ->
          falsy (rs_queryTimeout settings) ->
          queryTimeout (parseConfig raw) = 30%Z)
      /\ queryTimeout (parseConfig raw) <> 0%Z)
  /\ (sc_connections (parseConfig raw)
      = map parseConnection (raw_connection_list raw)
      /\ forall c,
           (forall p, rc_port c = Some p -> p <> 0%Z ->
                      cc_port (parseConnection c) = Some p)
           /\ (falsy (rc_port c) ->
               cc_port (parseConnection c) = Some 1521%Z)
           /\ cc_port (parseConnection c) <> Some 0%Z
           /\ cc_port (parseConnection c) <> None)
  /\ (forall w name sql maxRows params st h st1,
        config w = parseConfig raw ->
        detectQueryType sql = SELECT ->
        getConnection w name st = (Returned h, st1) ->
        let N := match maxRows with
                 | Some n => if (n =? 0)%Z then D else n
                 | None => D
                 end in
        N <> 0%Z
        /\ trace (snd (executeQuery w name sql maxRows params st))
           = Execute h sql (Some (binds_or_empty params))
               (Some (mkExecuteOptions (Some (Js.add N 1)) None
                                       (Some OUT_FORMAT_ARRAY)))
               :: trace st1).
Proof.
  intros settings falsy D.
  assert (Hor : forall a b d,
            (forall n, a = Some n -> n <> 0%Z -> or_Z a b d = n)
            /\ (falsy a -> forall n, b = Some n -> n <> 0%Z -> or_Z a b d = n)
            /\ (falsy a -> falsy b -> or_Z a b d = d)
            /\ (d <> 0%Z -> or_Z a b d <> 0%Z)).
  { intros a b d. unfold falsy, or_Z. repeat split.
    - intros n -> Hn. destruct (Z.eqb_spec n 0); [ contradiction | ].
      reflexivity.
    - intros [-> | ->] n -> Hn; simpl;
        (destruct (Z.eqb_spec n 0); [ contradiction | reflexivity ]).
    - intros [-> | ->] [-> | ->]; reflexivity.
    - intro Hd. apply or_Z_nonzero. exact Hd. }
  assert (HD : D <> 0%Z)
    by (unfold D, parseConfig; simpl; apply or_Z_nonzero; discriminate).
  split; [ | split; [ | split ] ].
  - destruct (Hor (rs_default_max_rows settings) (rs_defaultMaxRows settings)
                  100%Z) as (H1 & H2 & H3 & H4).
    split; [ exact H1 | split; [ exact H2 | split; [ exact H3 | exact HD ] ] ].
  - destruct (Hor (rs_query_timeout settings) (rs_queryTimeout settings)
                  30%Z) as (H1 & H2 & H3 & H4).
    split; [ exact H1 | split; [ exact H2 | split; [ exact H3 | ] ] ].
    apply H4. discriminate.
  - split; [ reflexivity | ]. intro c.
    destruct (Hor (rc_port c) None 1521%Z) as (H1 & _ & H3 & H4).
    unfold parseConnection. simpl. repeat split.
    + intros p Hp Hn. rewrite (H1 p Hp Hn). reflexivity.
    + intro Hf. rewrite (H3 Hf (or_introl eq_refl)). reflexivity.
    + intro H. inversion H as [H0]. revert H0. apply H4. discriminate.
    + discriminate.
  - intros w name sql maxRows params st h st1 Hw Hsel Hget N.
    assert (HN : effectiveMaxRows maxRows (defaultMaxRows (config w)) = N)
      by (rewrite Hw; reflexivity).
    split.
    + unfold N. destruct maxRows as [n | ]; [ | exact HD ].
      destruct (Z.eqb_spec n 0); assumption.
    + unfold executeQuery. rewrite Hsel. simpl. rewrite HN.
      unfold try_catch. rewrite (bind_returned _ _ _ _ _ Hget).
      unfold Date_now, db_execute, invoke, bind. simpl.
      destruct (drv_execute (driver w) (trace st1) h sql
                  (Some (binds_or_empty params)) _); reflexivity.
Qed.

Lemma parseConfig_defaults_witness :
  defaultMaxRows
    (parseConfig (mkRawConfig None None
                    (Some (mkRawSettings (Some 0%Z) None None None)) None))
  = 100%Z
  /\ defaultMaxRows
       (parseConfig (mkRawConfig None None
                       (Some (mkRawSettings (Some 0%Z) (Some 25%Z) None None))
                       None))
     = 25%Z
  /\ trace (snd (executeQuery
                   (mkWorld
                      (parseConfig
                         (mkRawConfig None None
                            (Some (mkRawSettings (Some 0%Z) (Some 25%Z) None
                                                 None))
                            (Some [mkRawConnection "dev" (Some "localhost")
                                     None None (Some "XEPDB1") None None None
                                     (Some "scott") (Some "tiger") None None
                                     (Some "ReadWrite")])))
                      example_env example_driver)
                   "dev" "SELECT * FROM t" (Some 0%Z) None fresh_state))
     = [Execute 0 "SELECT * FROM t" (Some [])
          (Some (mkExecuteOptions (Some 26%Z) None (Some OUT_FORMAT_ARRAY)));
        GetConnection "scott" "tiger" "localhost:1521/XEPDB1"].
Proof.
  split; [ | split ].
  - apply (proj1 (proj2 (proj2 (proj1
             (parseConfig_defaults
                (mkRawConfig None None
                   (Some (mkRawSettings (Some 0%Z) None None None))
                   None))))));
      [ right | left ]; reflexivity.
  - apply (proj1 (proj2 (proj1
             (parseConfig_defaults
                (mkRawConfig None None
                   (Some (mkRawSettings (Some 0%Z) (Some 25%Z) None None))
                   None)))) (or_intror eq_refl) 25%Z eq_refl).
    discriminate.
  - apply (proj2 (proj2 (proj2
             (parseConfig_defaults
                (mkRawConfig None None
                   (Some (mkRawSettings (Some 0%Z) (Some 25%Z) None None))
                   (Some [mkRawConnection "dev" (Some "localhost")
                            None None (Some "XEPDB1") None None None
                            (Some "scott") (Some "tiger") None None
                            (Some "ReadWrite")])))))
             (mkWorld _ example_env example_driver)
             "dev" "SELECT * FROM t" (Some 0%Z) None fresh_state 0
             (mkState [("dev", 0)] true
                [GetConnection "scott" "tiger" "localhost:1521/XEPDB1"] 0)
             eq_refl eq_refl eq_refl).
Defined.

(* ------------------------------------------------------------------------- *)
(** ** The execute_query tool *)

Lemma effectiveMaxRows_tool m d :
  effectiveMaxRows (Some (tool_max_rows m)) d = tool_max_rows m.
Proof.
  unfold effectiveMaxRows, tool_max_rows.
  destruct m as [n | ]; [ | reflexivity ].
  destruct (Z.eqb_spec n 0) as [-> | Hn]; [ reflexivity | ].
  destruct (Z.eqb_spec n 0); [ contradiction | reflexivity ].
Qed.

(** X23: through the execute_query tool the configured default row cap is
    never used: the cap is the [max_rows] argument, or 100 when it is missing
    or 0, and the whole run is the same under any other configured
    default. *)
Theorem tool_execute_query_ignores_default w connName sql max_rows st :
  effectiveMaxRows (Some (tool_max_rows max_rows)) (defaultMaxRows (config w))
  = tool_max_rows max_rows
  /\ tool_max_rows max_rows <> 0%Z
  /\ (max_rows = None \/ max_rows = Some 0%Z -> tool_max_rows max_rows = 100%Z)
  /\ forall d,
       tool_execute_query (with_defaultMaxRows w d) connName sql max_rows st
       = tool_execute_query w connName sql max_rows st.
Proof.
  split; [ apply effectiveMaxRows_tool | split; [ | split ] ].
  - unfold tool_max_rows. destruct max_rows as [n | ]; [ | discriminate ].
    destruct (Z.eqb_spec n 0); [ discriminate | assumption ].
  - intros [-> | ->]; reflexivity.
  - intro d. unfold tool_execute_query, executeQuery.
    rewrite !effectiveMaxRows_tool. reflexivity.
Qed.

Lemma tool_execute_query_ignores_default_witness :
  tool_max_rows (Some 0%Z) = 100%Z.
Proof.
  apply (proj1 (proj2 (proj2 (tool_execute_query_ignores_default
                                example_world "dev" "SELECT 1 FROM dual"
                                (Some 0%Z) fresh_state)))).
  right. reflexivity.
Defined.

(* ------------------------------------------------------------------------- *)
(** ** The Markdown table *)

Lemma length_app_str s t :
  String.length (s ++ t)%string = String.length s + String.length t.
Proof. induction s as [ | c s IH]; simpl; [ | rewrite IH ]; reflexivity. Qed.

Lemma length_repeat_char c n :
  String.length (repeat_str (String c EmptyString) n) = n.
Proof. induction n as [ | n IH]; simpl; [ | rewrite IH ]; reflexivity. Qed.

Lemma length_substring n m s :
  String.length (substring n m s) = Nat.min m (String.length s - n).
Proof.
  revert n m. induction s as [ | c s IH]; intros n m; simpl.
  - destruct n, m; reflexivity.
  - destruct n as [ | n]; [ destruct m as [ | m] | ]; simpl.
    + reflexivity.
    + rewrite IH. rewrite Nat.sub_0_r. reflexivity.
    + apply IH.
Qed.

Lemma length_padRight s n :
  String.length (padRight s n) = Nat.max (String.length s) n.
Proof. unfold padRight. rewrite length_app_str, length_repeat_char. lia. Qed.

Lemma length_padLeft s n :
  String.length (padLeft s n) = Nat.max (String.length s) n.
Proof. unfold padLeft. rewrite length_app_str, length_repeat_char. lia. Qed.

Lemma prefix_app s t : String.prefix s (s ++ t)%string = true.
Proof.
  induction s as [ | c s IH]; simpl; [ destruct t; reflexivity | ].
  destruct (ascii_dec c c); [ exact IH | contradiction ].
Qed.

Lemma app_str_empty s : (s ++ "")%string = s.
Proof. induction s as [ | c s IH]; simpl; [ | rewrite IH ]; reflexivity. Qed.

Lemma only_spaces_repeat k : only_spaces (repeat_str " " k) = true.
Proof. induction k as [ | k IH]; simpl; [ reflexivity | exact IH ]. Qed.

(** X24: padding never cuts.  [padRight] returns the text followed by
    spaces and [padLeft] the text preceded by spaces, as many as the text
    is short of the length asked for and none when it is not: the result has
    the length [max(len, str.length)] and is the text itself when the text
    is already that long. *)
Theorem padding_never_truncates s n :
  (exists blanks,
     only_spaces blanks = true
     /\ String.length blanks = n - String.length s
     /\ padRight s n = (s ++ blanks)%string
     /\ padLeft s n = (blanks ++ s)%string)
  /\ String.length (padRight s n) = Nat.max (String.length s) n
  /\ String.length (padLeft s n) = Nat.max (String.length s) n
  /\ Js.startsWith (padRight s n) s = true
  /\ (n <= String.length s -> padRight s n = s /\ padLeft s n = s).
Proof.
  split.
  { exists (repeat_str " " (n - String.length s)).
    split; [ apply only_spaces_repeat | split; [ | split; reflexivity ] ].
    apply length_repeat_char. }
  split; [ apply length_padRight | split; [ apply length_padLeft | ] ].
  split; [ apply prefix_app | ].
  intro Hle. unfold padRight, padLeft.
  replace (n - String.length s) with 0 by lia. simpl.
  split; [ apply app_str_empty | reflexivity ].
Qed.

Lemma padding_never_truncates_witness :
  padRight "Connected" 3 = "Connected" /\ padLeft "Connected" 3 = "Connected".
Proof.
  apply (proj2 (proj2 (proj2 (proj2 (padding_never_truncates "Connected" 3))))).
  simpl. lia.
Defined.

Lemma length_join_sep cells :
  cells <> [] ->
  String.length (Js.join " | " cells)
  = list_sum (map String.length cells) + 3 * (List.length cells - 1).
Proof.
  unfold Js.join.
  induction cells as [ | c cells IH]; intro Hne; [ contradiction | ].
  destruct cells as [ | d cells].
  - simpl. lia.
  - change (String.concat " | " (c :: d :: cells))
      with (c ++ " | " ++ String.concat " | " (d :: cells))%string.
    rewrite !length_app_str, IH by discriminate. simpl. lia.
Qed.

Lemma length_table_row cells :
  cells <> [] ->
  String.length (table_row cells) = table_width (map String.length cells).
Proof.
  intro Hne. unfold table_row, table_width.
  rewrite !length_app_str, length_join_sep by exact Hne.
  rewrite length_map. simpl. lia.
Qed.

Lemma fold_max_ge (f : list string -> nat) rows :
  forall a,
    a <= fold_left (fun mx row => Nat.max mx (f row)) rows a
    /\ forall row,
         In row rows ->
         f row <= fold_left (fun mx row => Nat.max mx (f row)) rows a.
Proof.
  induction rows as [ | r rows IH]; intro a; simpl.
  - split; [ lia | intros row [] ].
  - destruct (IH (Nat.max a (f r))) as [Hge Hin]. split; [ lia | ].
    intros row [<- | H]; [ lia | apply Hin; exact H ].
Qed.

Lemma column_width_bounds rows h i :
  String.length h <= column_width rows h i
  /\ 3 <= column_width rows h i
  /\ forall row, In row rows -> cell_width row i <= column_width rows h i.
Proof.
  unfold column_width.
  destruct (fold_max_ge (fun row => cell_width row i) rows 0) as [_ Hin].
  repeat split; try lia. intros row Hrow. specialize (Hin row Hrow). lia.
Qed.

Lemma length_separator_cell alignments w i :
  3 <= w -> String.length (separator_cell alignments w i) = w.
Proof.
  intro Hw. unfold separator_cell, slice_str.
  destruct (align_at alignments i); rewrite ?length_app_str,
    ?length_substring, ?length_repeat_char; simpl String.length.
  - reflexivity.
  - destruct (Z.ltb_spec 0 0); [ lia | ].
    destruct (Z.ltb_spec (-1) 0); [ | lia ]. lia.
  - destruct (Z.ltb_spec 1 0); [ lia | ].
    destruct (Z.ltb_spec (-1) 0); [ | lia ]. lia.
Qed.

Lemma nth_middle_width {A} (pre post : list A) x d :
  nth (List.length pre) (pre ++ x :: post) d = x.
Proof. induction pre; simpl; auto. Qed.

Lemma nth_error_middle {A} (pre post : list A) x :
  nth_error (pre ++ x :: post) (List.length pre) = Some x.
Proof. induction pre; simpl; auto. Qed.

Lemma header_cells_widths rows hs :
  forall pre W,
    W = pre ++ mapi_from (column_width rows) (List.length pre) hs ->
    map String.length
        (mapi_from (fun h i => padRight h (nth i W 0)) (List.length pre) hs)
    = mapi_from (column_width rows) (List.length pre) hs
    /\ forall alignments,
         map String.length
             (mapi_from (fun _ i => separator_cell alignments (nth i W 0) i)
                        (List.length pre) hs)
         = mapi_from (column_width rows) (List.length pre) hs.
Proof.
  induction hs as [ | h hs IH]; intros pre W HW; simpl.
  - split; reflexivity.
  - simpl in HW.
    assert (Hnth : nth (List.length pre) W 0
                   = column_width rows h (List.length pre))
      by (rewrite HW; apply nth_middle_width).
    destruct (column_width_bounds rows h (List.length pre)) as (Hh & H3 & _).
    destruct (IH (pre ++ [column_width rows h (List.length pre)]) W)
      as [IH1 IH2].
    { rewrite HW, <- app_assoc, length_app. simpl.
      rewrite Nat.add_1_r. reflexivity. }
    rewrite length_app in IH1, IH2. simpl in IH1, IH2.
    rewrite Nat.add_1_r in IH1, IH2.
    split.
    + rewrite Hnth, length_padRight, IH1. f_equal. lia.
    + intro alignments. rewrite Hnth, length_separator_cell by exact H3.
      rewrite IH2. reflexivity.
Qed.

Lemma data_cells_widths rows alignments W row :
  In row rows ->
  forall hs cells rpre pre,
    row = rpre ++ cells ->
    List.length rpre = List.length pre ->
    List.length cells = List.length hs ->
    W = pre ++ mapi_from (column_width rows) (List.length pre) hs ->
    map String.length
        (mapi_from (data_cell alignments W) (List.length pre) cells)
    = mapi_from (column_width rows) (List.length pre) hs.
Proof.
  intro Hrow.
  induction hs as [ | h hs IH]; intros cells rpre pre Hr Hlen Hc HW;
    destruct cells as [ | c cells]; try discriminate; simpl.
  - reflexivity.
  - simpl in HW.
    assert (Hw : nth_error W (List.length pre)
                 = Some (column_width rows h (List.length pre)))
      by (rewrite HW; apply nth_error_middle).
    assert (Hcell : cell_width row (List.length pre) = String.length c).
    { unfold cell_width. rewrite Hr, <- Hlen, nth_error_middle. reflexivity. }
    destruct (column_width_bounds rows h (List.length pre)) as (_ & _ & Hge).
    specialize (Hge row Hrow). rewrite Hcell in Hge.
    specialize (IH cells (rpre ++ [c])
                  (pre ++ [column_width rows h (List.length pre)])).
    rewrite !length_app in IH. simpl in IH. rewrite !Nat.add_1_r in IH.
    rewrite IH.
    + f_equal. unfold data_cell. rewrite Hw.
      destruct (align_at alignments (List.length pre));
        rewrite ?length_padRight, ?length_padLeft; lia.
    + rewrite Hr, <- app_assoc. reflexivity.
    + lia.
    + simpl in Hc. lia.
    + rewrite HW, <- app_assoc. reflexivity.
Qed.

Lemma widths_at_least_3 rows hs :
  forall k, Forall (fun w => 3 <= w) (mapi_from (column_width rows) k hs).
Proof.
  induction hs as [ | h hs IH]; intro k; simpl; constructor.
  - apply column_width_bounds.
  - apply IH.
Qed.

(** X25: the columns of a table line up.  For headers that are not empty and
    rows that have one cell per header, [createMarkdownTable] joins two lines
    more than there are rows, and every line (header, separator, data) has
    the same length, that of the column widths, each of which is at least 3
    and at least the length of its header.  Without headers the table is the
    empty text. *)
Theorem createMarkdownTable_lines_align headers rows alignments :
  createMarkdownTable [] rows alignments = EmptyString
  /\ (headers <> [] ->
      rectangular headers rows ->
      let widths := mapi (column_width rows) headers in
      createMarkdownTable headers rows alignments
      = Js.join newline (createMarkdownTable_lines headers rows alignments)
      /\ List.length (createMarkdownTable_lines headers rows alignments)
         = 2 + List.length rows
      /\ Forall (fun line => String.length line = table_width widths)
                (createMarkdownTable_lines headers rows alignments)
      /\ Forall (fun w => 3 <= w) widths).
Proof.
  split; [ reflexivity | ].
  intros Hne Hrect widths.
  assert (Hlenw : forall f : string -> nat -> string,
             mapi f headers <> [])
    by (intro f; destruct headers; [ contradiction | discriminate ]).
  destruct (header_cells_widths rows headers [] widths eq_refl) as [Hh Hs].
  simpl in Hh, Hs. fold (@mapi string string) in Hh.
  split; [ destruct headers; [ contradiction | reflexivity ] | split ].
  - unfold createMarkdownTable_lines. simpl. rewrite length_map. reflexivity.
  - split.
    + unfold createMarkdownTable_lines. fold widths.
      constructor; [ | constructor ].
      * rewrite length_table_row by apply Hlenw.
        unfold mapi. rewrite Hh. reflexivity.
      * rewrite length_table_row by apply Hlenw.
        unfold mapi. rewrite (Hs alignments). reflexivity.
      * apply Forall_forall. intros line Hline. apply in_map_iff in Hline.
        destruct Hline as [row [<- Hrow]].
        assert (Hlen : List.length row = List.length headers)
          by (unfold rectangular in Hrect; rewrite Forall_forall in Hrect;
              apply Hrect; exact Hrow).
        assert (Hw : map String.length (mapi (data_cell alignments widths) row)
                     = widths)
          by (apply (data_cells_widths rows alignments widths row Hrow
                       headers row [] []); auto).
        rewrite length_table_row, Hw; [ reflexivity | ].
        destruct row; [ | discriminate ].
        destruct headers; [ contradiction | discriminate ].
    + apply widths_at_least_3.
Qed.

Lemma createMarkdownTable_lines_align_witness :
  Forall (fun line => String.length line = 15)
         (createMarkdownTable_lines ["ID"; "NAME"]
            [["1"; "alice"]; ["22"; "bob"]] (Some [AlignRight])).
Proof.
  assert (Hne : ["ID"; "NAME"] <> []) by discriminate.
  assert (Hrect : rectangular ["ID"; "NAME"] [["1"; "alice"]; ["22"; "bob"]])
    by (repeat constructor).
  destruct (proj2 (createMarkdownTable_lines_align ["ID"; "NAME"]
                     [["1"; "alice"]; ["22"; "bob"]] (Some [AlignRight]))
              Hne Hrect) as (_ & _ & Hall & _).
  exact Hall.
Defined.

(* ------------------------------------------------------------------------- *)
(** ** Resolving the target and the password, initialising the client *)

Lemma truthy_str_present o :
  (exists s, truthy_str o = Some s) <-> present o.
Proof.
  unfold truthy_str, present. destruct o as [[ | c s] | ]; simpl; split.
  - intros [x H]. discriminate.
  - intros [x [H Hne]]. inversion H; subst. contradiction.
  - intros _. eexists. split; [ reflexivity | discriminate ].
  - intros _. eauto.
  - intros [x H]. discriminate.
  - intros [x [H _]]. discriminate.
Qed.

Lemma truthy_str_cases o :
  (exists s, truthy_str o = Some s /\ o = Some s /\ s <> EmptyString)
  \/ (truthy_str o = None /\ ~ present o).
Proof.
  unfold truthy_str, present. destruct o as [[ | c s] | ]; simpl.
  - right. split; [ reflexivity | ]. intros [x [H Hne]].
    inversion H; subst. contradiction.
  - left. eexists. repeat split. discriminate.
  - right. split; [ reflexivity | ]. intros [x [H _]]. discriminate.
Qed.

(** X26: when the configuration of a connection resolves.  [getDsn] returns
    a target exactly when the connection string is given, or the host is and
    with it a service name or a SID; a connection string wins over the host.
    [getPassword] returns a password exactly when the password is given, or
    the named environment variable is and has a value; the password wins
    over the variable.  An empty text counts as not given throughout. *)
Theorem configuration_resolves w cfg :
  ((exists dsn, getDsn cfg = Returned dsn)
   <-> present (cc_connectionString cfg)
       \/ (present (cc_host cfg)
           /\ (present (cc_serviceName cfg) \/ present (cc_sid cfg))))
  /\ (forall s,
        cc_connectionString cfg = Some s -> s <> EmptyString ->
        getDsn cfg = Returned s)
  /\ ((exists p, getPassword w cfg = Returned p)
      <-> present (cc_password cfg)
          \/ (exists v,
                cc_passwordEnv cfg = Some v /\ v <> EmptyString
                /\ present (env w v)))
  /\ (forall p,
        cc_password cfg = Some p -> p <> EmptyString ->
        getPassword w cfg = Returned p).
Proof.
  unfold getDsn, getPassword.
  split; [ | split; [ | split ] ].
  - destruct (truthy_str_cases (cc_connectionString cfg))
      as [(s & Ht & Hs & Hne) | [Ht Hcs]]; rewrite Ht.
    { split; [ intros _; left; exists s; auto | intros _; eauto ]. }
    destruct (truthy_str_cases (cc_host cfg))
      as [(hs & Hth & Hh & Hhne) | [Hth Hh]]; rewrite Hth.
    2: { split; [ intros [d H]; discriminate | ].
         intros [H | [H _]]; contradiction. }
    assert (Hhost : present (cc_host cfg)) by (exists hs; auto).
    destruct (truthy_str_cases (cc_serviceName cfg))
      as [(sv & Hts & Hsv & Hsne) | [Hts Hsv]]; rewrite Hts.
    { split; [ intros _; right; split; [ exact Hhost | left; exists sv; auto ]
             | intros _; eauto ]. }
    destruct (truthy_str_cases (cc_sid cfg))
      as [(sd & Htd & Hd & Hdne) | [Htd Hd]]; rewrite Htd.
    { split; [ intros _; right; split; [ exact Hhost | right; exists sd; auto ]
             | intros _; eauto ]. }
    split; [ intros [d H]; discriminate | ].
    intros [H | [_ [H | H]]]; contradiction.
  - intros s Hs Hne. unfold truthy_str. rewrite Hs.
    destruct s; [ contradiction | reflexivity ].
  - destruct (truthy_str_cases (cc_password cfg))
      as [(p & Htp & Hp & Hpne) | [Htp Hp]]; rewrite Htp.
    { split; [ intros _; left; exists p; auto | intros _; eauto ]. }
    destruct (truthy_str_cases (cc_passwordEnv cfg))
      as [(v & Htv & Hv & Hvne) | [Htv Hv]]; rewrite Htv.
    2: { split; [ intros [p H]; discriminate | ].
         intros [H | (v & Hv' & Hne & _)]; [ contradiction | ].
         exfalso. apply Hv. exists v. auto. }
    destruct (truthy_str_cases (env w v))
      as [(x & Htx & Hx & Hxne) | [Htx Hx]]; rewrite Htx.
    { split; [ intros _; right; exists v; repeat split; auto; exists x; auto
             | intros _; eauto ]. }
    split; [ intros [p H]; discriminate | ].
    intros [H | (v' & Hv' & _ & Hpres)]; [ contradiction | ].
    rewrite Hv in Hv'. inversion Hv'; subst v'. contradiction.
  - intros p Hp Hne. unfold truthy_str. rewrite Hp.
    destruct p; [ contradiction | reflexivity ].
Qed.

Lemma configuration_resolves_witness :
  (exists dsn, getDsn prod_conn = Returned dsn)
  /\ exists p, getPassword example_world prod_conn = Returned p.
Proof.
  split.
  - apply (proj2 (proj1 (configuration_resolves example_world prod_conn))).
    right. split; [ | right ]; eexists; (split; [ reflexivity | discriminate ]).
  - apply (proj2 (proj1 (proj2 (proj2 (configuration_resolves example_world
                                         prod_conn))))).
    right. exists "PROD_PW".
    split; [ reflexivity | split; [ discriminate | ] ].
    eexists. split; [ reflexivity | discriminate ].
Defined.

(** X27: the client library is initialised at most once.  Once initialised,
    and always in thin mode, [initialize] calls nothing.  In thick mode it
    calls [initOracleClient], with the configured directory when there is
    one; when that call raises, [initialize] raises and stays uninitialised,
    so that [connect] fails with that error before asking for a session. *)
Theorem client_initialised_once w st :
  (initialized st = true -> initialize w st = (Returned tt, st))
  /\ (oracleClientMode (config w) = THIN ->
      initialize w st = (Returned tt, initialised st))
  /\ (oracleClientMode (config w) = THICK ->
      initialized st = false ->
      let libDir := truthy_str (oracleClientPath (config w)) in
      (drv_initOracleClient (driver w) (trace st) libDir = Returned tt ->
       initialize w st
       = (Returned tt, initialised (push (InitOracleClient libDir) st)))
      /\ (forall e name,
            drv_initOracleClient (driver w) (trace st) libDir = Thrown e ->
            initialize w st = (Thrown e, push (InitOracleClient libDir) st)
            /\ connect w name st
               = (Thrown e, push (InitOracleClient libDir) st))).
Proof.
  split; [ | split ].
  - intro Hi. rewrite (initialize_ready w st (or_intror Hi)).
    unfold initialised. destruct st; simpl in *; subst. reflexivity.
  - intro Hthin. apply initialize_ready. left. exact Hthin.
  - intros Hthick Hi libDir.
    assert (Hrun : initialize w st
                   = match drv_initOracleClient (driver w) (trace st) libDir
                     with
                     | Returned _ =>
                         (Returned tt,
                          initialised (push (InitOracleClient libDir) st))
                     | Thrown e =>
                         (Thrown e, push (InitOracleClient libDir) st)
                     end).
    { unfold initialize, bind, get_state. rewrite Hi, Hthick.
      unfold libDir.
      destruct (truthy_str (oracleClientPath (config w)));
        unfold db_initOracleClient, invoke;
        destruct (drv_initOracleClient (driver w) (trace st) _);
        reflexivity. }
    split.
    + intro Hok. rewrite Hrun, Hok. reflexivity.
    + intros e name Herr. rewrite Hrun, Herr. split; [ reflexivity | ].
      unfold connect. unfold bind at 1. rewrite Hrun, Herr. reflexivity.
Qed.

Lemma client_initialised_once_witness :
  initialize example_world connected_state = (Returned tt, connected_state)
  /\ initialize example_world fresh_state
     = (Returned tt, initialised fresh_state).
Proof.
  split.
  - apply (proj1 (client_initialised_once example_world connected_state)).
    reflexivity.
  - apply (proj1 (proj2 (client_initialised_once example_world fresh_state))).
    reflexivity.
Defined.
